(** * get_dewey_urls.py: a shallow embedding and its verified properties

    The script [inst/python/get_dewey_urls.py] reads an API key and a
    dataset identifier from [sys.argv], lists the files of the dataset
    through the deweypy client, and prints one JSON summary line.

    Python strings are sequences of Unicode code points, records are
    dictionaries, and every statement may raise.  The model keeps all
    three: [pystr] is a list of code points, a record is a finite map from
    keys to dynamically typed values, and the script runs in a small
    monad threading the client state, the standard output and the raised
    exception.  The library functions the script calls ([re.sub],
    [json.dumps], [print], [sum]) are modelled by what CPython 3.11 does.

    Outside the model: the imports (taken to succeed), the traceback on
    standard error, floating-point values (no statement below speaks of a
    listing that holds one), and anything the deweypy client itself might
    write to standard output (taken to be nothing). *)

From Stdlib Require Import ZArith NArith List String Ascii Lia Bool.
From Stdlib Require Import DecimalZ DecimalPos DecimalN DecimalFacts.
From stdpp Require Import gmap list.

#[local] Set Warnings "-register-all".
Local Open Scope N_scope.

(** ** Strings *)

(** A character is its Unicode code point. *)
Definition char := N.
Definition pystr := list char.

(** [str "abc"] is the Python literal ["abc"] (ASCII literals only). *)
Definition str (s : string) : pystr :=
  List.map N_of_ascii (list_ascii_of_string s).

Definition LF : char := 10.

(** ** Regular expressions: the fragment of [re] the script uses *)

(** Start of every run of decimal digits (general category Nd) of ten
    consecutive code points, Unicode 14.0.0 as shipped with CPython 3.11;
    [\d] on a [str] pattern is [Py_UNICODE_ISDECIMAL]. *)
Definition decimal_decades : list N :=
  [ 0x30; 0x660; 0x6F0; 0x7C0; 0x966; 0x9E6; 0xA66; 0xAE6; 0xB66; 0xBE6;
    0xC66; 0xCE6; 0xD66; 0xDE6; 0xE50; 0xED0; 0xF20; 0x1040; 0x1090;
    0x17E0; 0x1810; 0x1946; 0x19D0; 0x1A80; 0x1A90; 0x1B50; 0x1BB0;
    0x1C40; 0x1C50; 0xA620; 0xA8D0; 0xA900; 0xA9D0; 0xA9F0; 0xAA50;
    0xABF0; 0xFF10; 0x104A0; 0x10D30; 0x11066; 0x110F0; 0x11136; 0x111D0;
    0x112F0; 0x11450; 0x114D0; 0x11650; 0x116C0; 0x11730; 0x118E0;
    0x11950; 0x11C50; 0x11D50; 0x11DA0; 0x16A60; 0x16AC0; 0x16B50;
    0x1E140; 0x1E2F0; 0x1E950; 0x1FBF0 ].

(** The mathematical digits U+1D7CE..U+1D7FF are the one longer run. *)
Definition is_decimal (c : char) : bool :=
  existsb (fun lo => (lo <=? c) && (c <=? lo + 9)) decimal_decades
  || ((0x1D7CE <=? c) && (c <=? 0x1D7FF)).

Inductive charset :=
| Lit (c : char)            (* an ordinary character *)
| OneOf (cs : pystr)        (* [...] *)
| Digit                     (* \d *)
| AnyChar.                  (* .  (no DOTALL: anything but a line feed) *)

Inductive item :=
| One (k : charset)
| Star (k : charset)        (* k*, greedy *)
| EndOfString.              (* $  (no MULTILINE) *)

Definition regex := list item.

Definition in_charset (k : charset) (c : char) : bool :=
  match k with
  | Lit a => N.eqb a c
  | OneOf cs => existsb (N.eqb c) cs
  | Digit => is_decimal c
  | AnyChar => negb (N.eqb c LF)
  end.

(** [$] matches at the end of the string and just before a line feed that
    is the last character of the string. *)
Definition at_end (s : pystr) : bool :=
  match s with
  | [] => true
  | [c] => N.eqb c LF
  | _ => false
  end.

(** Backtracking match of [p] at the start of [s]; the result is the input
    left after the match.  A star first takes one more character and falls
    back to the rest of the pattern when that fails. *)
Fixpoint match_here (p : regex) (s : pystr) : option pystr :=
  match p with
  | [] => Some s
  | One k :: p' =>
      match s with
      | c :: s' => if in_charset k c then match_here p' s' else None
      | [] => None
      end
  | Star k :: p' =>
      (fix star (s : pystr) : option pystr :=
         match s with
         | c :: s' =>
             if in_charset k c then
               match star s' with
               | Some r => Some r
               | None => match_here p' s
               end
             else match_here p' s
         | [] => match_here p' s
         end) s
  | EndOfString :: p' => if at_end s then match_here p' s else None
  end.

(** Number of characters the match at the start of [s] consumes. *)
Definition match_len (p : regex) (s : pystr) : option nat :=
  match match_here p s with
  | Some r => Some (length s - length r)%nat
  | None => None
  end.

(** [re.sub(p, repl, s)]: every leftmost non-overlapping match is replaced.
    [skip] counts the characters still covered by the previous match.  The
    rules of [re.sub] for empty matches are not modelled: an empty match
    replaces nothing here, and the two patterns of the script never match
    the empty string ([shard_suffix_consumes], [data_suffix_consumes]). *)
Fixpoint sub_scan (p : regex) (repl : pystr) (skip : nat) (s : pystr) : pystr :=
  match s with
  | [] => []
  | c :: s' =>
      match skip with
      | S k => sub_scan p repl k s'
      | O =>
          match match_len p s with
          | Some (S n) => repl ++ sub_scan p repl n s'
          | _ => c :: sub_scan p repl 0 s'
          end
      end
  end.

Definition re_sub (p : regex) (repl s : pystr) : pystr := sub_scan p repl 0 s.

(** r"[-_]\d.*$" *)
Definition shard_suffix : regex :=
  [One (OneOf (str "-_")); One Digit; Star AnyChar; EndOfString].

(** r"-data$" *)
Definition data_suffix : regex :=
  [One (Lit 45); One (Lit 100); One (Lit 97); One (Lit 116); One (Lit 97);
   EndOfString].

(** Lines 24-25 on a [str] value. *)
Definition parent_folder (file_name : pystr) : pystr :=
  re_sub data_suffix [] (re_sub shard_suffix [] file_name).


(** ** Values, records and exceptions *)

(** The Python objects the script handles: what a JSON listing holds,
    except [float].  A value of this type is never a float, so what is
    proved of "every value" is proved of every value that holds no float.
    A dict literal keeps the order its keys were written in, so [PDict] is
    an association list. *)
Inductive pyval :=
| PNone
| PBool (b : bool)
| PInt (z : Z)
| PStr (s : pystr)
| PList (l : list pyval)
| PDict (d : list (pystr * pyval)).

(** One element of the listing: a dict looked up by key only. *)
Abbreviation record := (gmap pystr pyval).

Inductive exn :=
| IndexError                 (* sequence index out of range *)
| KeyError (key : pystr)     (* dict lookup of an absent key *)
| TypeError                  (* operand of the wrong type *)
| ValueError                 (* an int too long to convert to text *)
| ClientError (what : pystr). (* whatever the deweypy client raises *)

(** An expression either raises or has a value. *)
Definition result (A : Type) : Type := exn + A.

Definition result_bind {A B} (r : result A) (k : A -> result B) : result B :=
  match r with
  | inl e => inl e
  | inr a => k a
  end.

Declare Scope result_scope.
Delimit Scope result_scope with result.
Notation "x <- r ;; k" := (result_bind r (fun x => k))
  (at level 100, r at next level, right associativity) : result_scope.

(** [l[i]] for a non-negative [i]. *)
Definition index {A} (l : list A) (i : nat) : result A :=
  match nth_error l i with
  | Some a => inr a
  | None => inl IndexError
  end.

(** [f[key]] *)
Definition getitem (f : record) (key : pystr) : result pyval :=
  match f !! key with
  | Some v => inr v
  | None => inl (KeyError key)
  end.

(** [[g(f) for f in files]]: in order, stopping at the first exception. *)
Fixpoint comprehension {A B} (g : A -> result B) (l : list A) : result (list B) :=
  match l with
  | [] => inr []
  | a :: l' =>
      (b <- g a ;; bs <- comprehension g l' ;; inr (b :: bs))%result
  end.

(** The integer a value is in arithmetic; a [bool] is the [int] 0 or 1. *)
Definition as_int (v : pyval) : option Z :=
  match v with
  | PInt z => Some z
  | PBool b => Some (Z.b2z b)
  | _ => None
  end.

(** [acc + v] for an [int] accumulator. *)
Definition int_add (acc : Z) (v : pyval) : result Z :=
  match as_int v with
  | Some z => inr (acc + z)%Z
  | None => inl TypeError
  end.

(** [sum(f["file_size_bytes"] for f in files)] from the accumulator [acc]
    on: the generator yields one lookup at a time, each added before the
    next lookup is made. *)
Fixpoint sum_sizes (acc : Z) (files : list record) : result Z :=
  match files with
  | [] => inr acc
  | f :: rest =>
      (v <- getitem f (str "file_size_bytes") ;;
       acc' <- int_add acc v ;;
       sum_sizes acc' rest)%result
  end.

(** [re.sub(p, repl, v)] raises [TypeError] unless [v] is a [str]. *)
Definition py_re_sub (p : regex) (repl : pystr) (v : pyval) : result pyval :=
  match v with
  | PStr s => inr (PStr (re_sub p repl s))
  | _ => inl TypeError
  end.

(** ** json.dumps with its default arguments *)

Definition hex_digit (d : N) : char := if d <? 10 then 48 + d else 87 + d.

(** ['{0:04x}'.format(u)] for [u < 0x10000] *)
Definition hex4 (u : N) : pystr :=
  [hex_digit (u / 4096 mod 16); hex_digit (u / 256 mod 16);
   hex_digit (u / 16 mod 16); hex_digit (u mod 16)].

Definition u_escape (u : N) : pystr := 92 :: 117 :: hex4 u.

(** [ensure_ascii=True]: the short escapes, then everything outside
    [' '..'~'] as [\uXXXX], astral code points as a surrogate pair. *)
Definition escape_char (c : char) : pystr :=
  if c =? 34 then [92; 34]
  else if c =? 92 then [92; 92]
  else if c =? 10 then [92; 110]
  else if c =? 13 then [92; 114]
  else if c =? 9 then [92; 116]
  else if c =? 12 then [92; 102]
  else if c =? 8 then [92; 98]
  else if (32 <=? c) && (c <=? 126) then [c]
  else if c <? 0x10000 then u_escape c
  else
    let n := c - 0x10000 in
    u_escape (N.lor 0xD800 (N.land (N.shiftr n 10) 0x3FF))
      ++ u_escape (N.lor 0xDC00 (N.land n 0x3FF)).

Definition encode_basestring_ascii (s : pystr) : pystr :=
  34 :: flat_map escape_char s ++ [34].

Fixpoint uint_chars (d : Decimal.uint) : pystr :=
  match d with
  | Decimal.Nil => []
  | Decimal.D0 d => 48 :: uint_chars d
  | Decimal.D1 d => 49 :: uint_chars d
  | Decimal.D2 d => 50 :: uint_chars d
  | Decimal.D3 d => 51 :: uint_chars d
  | Decimal.D4 d => 52 :: uint_chars d
  | Decimal.D5 d => 53 :: uint_chars d
  | Decimal.D6 d => 54 :: uint_chars d
  | Decimal.D7 d => 55 :: uint_chars d
  | Decimal.D8 d => 56 :: uint_chars d
  | Decimal.D9 d => 57 :: uint_chars d
  end.

Definition int_chars (d : Decimal.int) : pystr :=
  match d with
  | Decimal.Pos u => uint_chars u
  | Decimal.Neg u => 45 :: uint_chars u
  end.

(** The text [int.__repr__] returns when it returns. *)
Definition int_repr (z : Z) : pystr := int_chars (Z.to_int z).

(** [sys.int_info.default_max_str_digits]: the interpreter refuses to
    convert an [int] of more decimal digits to text.  The script leaves
    the limit at its default. *)
Definition max_str_digits : nat := 4300.

(** The decimal digits of the absolute value; the sign does not count. *)
Definition int_digits (z : Z) : pystr := uint_chars (N.to_uint (Z.abs_N z)).

(** [int.__repr__] returns for [z]; otherwise it raises [ValueError]. *)
Definition int_fits (z : Z) : bool :=
  (length (int_digits z) <=? max_str_digits)%nat.

(** [sep.join(parts)] *)
Fixpoint join (sep : pystr) (parts : list pystr) : pystr :=
  match parts with
  | [] => []
  | [p] => p
  | p :: rest => p ++ sep ++ join sep rest
  end.

(** The text [json.dumps] returns when it returns: item separator [", "]
    and key separator [": "], no indentation. *)
Fixpoint json_dumps (v : pyval) : pystr :=
  match v with
  | PNone => str "null"
  | PBool true => str "true"
  | PBool false => str "false"
  | PInt z => int_repr z
  | PStr s => encode_basestring_ascii s
  | PList l => 91 :: join (str ", ") (List.map json_dumps l) ++ [93]
  | PDict d =>
      123 :: join (str ", ")
               (List.map (fun kv : pystr * pyval =>
                            let (k, x) := kv in
                            encode_basestring_ascii k ++ str ": " ++ json_dumps x) d)
          ++ [125]
  end.

(** One item of a dict as [json_dumps] writes it. *)
Definition dumps_member (kv : pystr * pyval) : pystr :=
  let (k, x) := kv in encode_basestring_ascii k ++ str ": " ++ json_dumps x.

(** Every [int] in the value can be converted to text. *)
Fixpoint serializable (v : pyval) : bool :=
  match v with
  | PNone | PBool _ | PStr _ => true
  | PInt z => int_fits z
  | PList l => forallb serializable l
  | PDict d => forallb (fun kv : pystr * pyval => serializable (snd kv)) d
  end.

(** [json.dumps(v)]: the encoder calls [int.__repr__] on every [int] it
    meets, and the [ValueError] of a refused conversion leaves
    [json.dumps] with no text returned. *)
Definition dumps (v : pyval) : result pystr :=
  if serializable v then inr (json_dumps v) else inl ValueError.

(** ** The process: client state, standard output, uncaught exceptions *)

Section Process.

(** State of the deweypy client (credentials, connections). *)
Context {W : Type}.

Record proc := Proc { world : W; stdout : pystr }.

(** A statement runs from a process state, raises or completes, and
    leaves a process state. *)
Definition M (A : Type) : Type := proc -> result A * proc.

Definition ret {A} (a : A) : M A := fun st => (inr a, st).

Definition bind {A B} (m : M A) (k : A -> M B) : M B :=
  fun st =>
    match m st with
    | (inl e, st') => (inl e, st')
    | (inr a, st') => k a st'
    end.

(** An expression without effect on the process. *)
Definition eval {A} (r : result A) : M A := fun st => (r, st).

(** A call into the client. *)
Definition call {A} (f : W -> result A * W) : M A :=
  fun st =>
    let (r, w) := f (world st) in
    (r, {| world := w; stdout := stdout st |}).

(** [print(text)] *)
Definition print (text : pystr) : M unit :=
  fun st => (inr tt, {| world := world st; stdout := stdout st ++ text ++ [LF] |}).

End Process.

Arguments proc : clear implicits.
Arguments M : clear implicits.

Declare Scope proc_scope.
Delimit Scope proc_scope with proc.
Notation "x <- m ;; k" := (bind m (fun x => k))
  (at level 100, m at next level, right associativity) : proc_scope.
Notation "m ;;; k" := (bind m (fun _ => k))
  (at level 100, right associativity) : proc_scope.

(** Lines 19-42: the mapping handed to [json.dumps].  Nothing here
    touches the process, so it is one expression. *)
Definition summary (files : list record) : result pyval :=
  (urls <- comprehension (fun f => getitem f (str "link")) files ;;
   f0 <- index files 0 ;;
   file_name <- getitem f0 (str "file_name") ;;
   parent_folder <- py_re_sub shard_suffix [] file_name ;;
   parent_folder <- py_re_sub data_suffix [] parent_folder ;;
   f0 <- index files 0 ;;
   file_extension <- getitem f0 (str "file_extension") ;;
   f0 <- index files 0 ;;
   partition_key <- getitem f0 (str "partition_key") ;;
   total <- sum_sizes 0 files ;;
   inr (PDict [ (str "urls", PList urls);
                (str "parent_folder", parent_folder);
                (str "file_extension", file_extension);
                (str "partition_key", partition_key);
                (str "file_size_bytes", PInt total) ]))%result.

Section Script.

Context {W : Type}.

(** [deweypy.auth.set_api_key] and
    [deweypy.download.synchronous.get_dataset_files]: not part of the
    repository.  Each may change the client state and may raise. *)
Variable set_api_key : pystr -> W -> result unit * W.
Variable get_dataset_files : pystr -> W -> result (list record) * W.

(** The script, lines 11-44; [argv] is [sys.argv], script path first. *)
Definition script (argv : list pystr) : M W unit :=
  (api_key <- eval (index argv 1) ;;
   data_id <- eval (index argv 2) ;;
   call (set_api_key api_key) ;;;
   files <- call (get_dataset_files data_id) ;;
   d <- eval (summary files) ;;
   text <- eval (dumps d) ;;
   print text)%proc.

(** What the calling process observes. *)
Record outcome := Outcome {
  out_stdout : pystr;
  uncaught : option exn;
  exit_status : Z
}.

(** The interpreter exits with status 1 on an uncaught exception (after a
    traceback on standard error) and with status 0 otherwise. *)
Definition run (argv : list pystr) (w : W) : outcome :=
  match script argv {| world := w; stdout := [] |} with
  | (inr _, st) => {| out_stdout := stdout st; uncaught := None; exit_status := 0 |}
  | (inl e, st) => {| out_stdout := stdout st; uncaught := Some e; exit_status := 1 |}
  end.

End Script.

(** ** The data model of the specification *)

(** [d[key]] on a dict literal. *)
Definition dict_get (d : pyval) (key : pystr) : option pyval :=
  match d with
  | PDict kvs => snd <$> List.find (fun kv => bool_decide (fst kv = key)) kvs
  | _ => None
  end.

(** A Python [str] holds code points below 0x110000. *)
Definition unicode_str (s : pystr) : bool := forallb (fun c => c <? 0x110000) s.

Fixpoint unicode (v : pyval) : bool :=
  match v with
  | PNone | PBool _ | PInt _ => true
  | PStr s => unicode_str s
  | PList l => forallb unicode l
  | PDict d =>
      forallb (fun kv : pystr * pyval =>
                 let (k, x) := kv in unicode_str k && unicode x) d
  end.

Definition is_str (v : pyval) : bool :=
  match v with PStr s => unicode_str s | _ => false end.

Definition is_int (v : pyval) : bool :=
  match v with PInt _ => true | _ => false end.

Definition is_none (v : pyval) : bool :=
  match v with PNone => true | _ => false end.

Definition has_field (f : record) (key : string) (ty : pyval -> bool) : bool :=
  match f !! str key with
  | Some v => ty v
  | None => false
  end.

(** A file-metadata record: link, file_name and file_extension strings,
    partition_key a string or null, file_size_bytes an integer. *)
Definition well_formed (f : record) : bool :=
  has_field f "link" is_str
  && has_field f "file_name" is_str
  && has_field f "file_extension" is_str
  && has_field f "partition_key" (fun v => is_str v || is_none v)
  && has_field f "file_size_bytes" is_int.

(** [f[key]] is there and is [v]. *)
Definition field_is (key : string) (f : record) (v : pyval) : Prop :=
  f !! str key = Some v.

(** [f["file_size_bytes"]] is there and counts as the integer [z]. *)
Definition size_is (f : record) (z : Z) : Prop :=
  exists v, field_is "file_size_bytes" f v /\ as_int v = Some z.

(** A record misses a field the script reads from it: link and
    file_size_bytes of every record, the other three of the first. *)
Definition lacks (f : record) (key : string) : Prop := f !! str key = None.

Definition field_missing (files : list record) : Prop :=
  (exists f, f ∈ files /\ (lacks f "link" \/ lacks f "file_size_bytes"))
  \/ (exists f0 rest, files = f0 :: rest
        /\ (lacks f0 "file_name" \/ lacks f0 "file_extension"
            \/ lacks f0 "partition_key")).

(** The fields whose type the script depends on hold that type where
    they are present: file_name of the first record a [str], every
    file_size_bytes an [int]. *)
Definition typed_where_present (files : list record) : Prop :=
  (forall f0 rest v, files = f0 :: rest ->
     f0 !! str "file_name" = Some v -> exists s, v = PStr s)
  /\ (forall f v, f ∈ files ->
        f !! str "file_size_bytes" = Some v -> exists z, as_int v = Some z).

(** The exact sum of a list of integers. *)
Definition Zsum (zs : list Z) : Z := fold_right Z.add 0%Z zs.

(** The integer a record's file_size_bytes counts as, 0 when it has none. *)
Definition size_of (f : record) : Z :=
  match f !! str "file_size_bytes" with
  | Some v => default 0%Z (as_int v)
  | None => 0%Z
  end.

(** The exact sum of the sizes of a listing. *)
Definition total_size (files : list record) : Z := Zsum (List.map size_of files).

(** The dict literal of lines 32-42. *)
Definition mapping (urls : list pyval) (folder ext pk : pyval) (total : Z) : pyval :=
  PDict [ (str "urls", PList urls);
          (str "parent_folder", folder);
          (str "file_extension", ext);
          (str "partition_key", pk);
          (str "file_size_bytes", PInt total) ].

(** The characters from the space to the tilde. *)
Definition printable (c : char) : Prop := 32 <= c <= 126.

(** A key as it is printed: between quotation marks. *)
Definition quoted (key : string) : pystr := 34 :: str key ++ [34].

(** ** A sample run *)

Definition make_record (link name ext : string) (pk : pyval) (size : Z) : record :=
  <[str "link" := PStr (str link)]>
  (<[str "file_name" := PStr (str name)]>
  (<[str "file_extension" := PStr (str ext)]>
  (<[str "partition_key" := pk]>
  (<[str "file_size_bytes" := PInt size]> ∅)))).

Definition sample_listing : list record :=
  [ make_record "https://files.example/sales-data_0.csv" "sales-data_0.csv"
      ".csv" PNone 120;
    make_record "https://files.example/sales-data_1.csv" "sales-data_1.csv"
      ".csv" PNone 80 ].

Definition sample_argv : list pystr :=
  [str "get_dewey_urls.py"; str "secret"; str "sales"].

(** A record without file_extension whose file_name is null. *)
Definition broken_record : record :=
  <[str "link" := PStr (str "https://files.example/part-0")]>
  (<[str "file_name" := PNone]>
  (<[str "partition_key" := PNone]>
  (<[str "file_size_bytes" := PInt 1]> ∅))).

(** A record that has everything but its link. *)
Definition linkless_record : record :=
  delete (str "link")
    (make_record "https://files.example/sales-data_2.csv" "sales-data_2.csv"
       ".csv" PNone 40).

(** A client that accepts every key and lists [files] for every dataset. *)
Definition accept_key : pystr -> unit -> result unit * unit :=
  fun _ w => (inr tt, w).

Definition serve (files : list record) : pystr -> unit -> result (list record) * unit :=
  fun _ w => (inr files, w).

(** Step a of the folder-name derivation in the specification's words:
    from the first hyphen or underscore that a digit follows, everything
    to the end of the string goes. *)
Fixpoint spec_strip_shard (s : pystr) : pystr :=
  match s with
  | [] => []
  | c :: s' =>
      match s' with
      | d :: _ =>
          if ((c =? 45) || (c =? 95)) && is_decimal d then []
          else c :: spec_strip_shard s'
      | [] => [c]
      end
  end.

(** Step b in the specification's words: a trailing "-data" goes. *)
Definition spec_strip_data (s : pystr) : pystr :=
  if decide (str "-data" `suffix_of` s) then take (length s - 5)%nat s else s.

Definition spec_parent_folder (s : pystr) : pystr :=
  spec_strip_data (spec_strip_shard s).

(** ** JSON texts (RFC 8259) and the values they denote *)

Definition is_ws (c : char) : bool :=
  (c =? 32) || (c =? 9) || (c =? 10) || (c =? 13).

Definition hex_value (c : char) : option N :=
  if (48 <=? c) && (c <=? 57) then Some (c - 48)
  else if (97 <=? c) && (c <=? 102) then Some (c - 87)
  else if (65 <=? c) && (c <=? 70) then Some (c - 55)
  else None.

(** Four hexadecimal digits and the 16-bit unit they spell. *)
Inductive hex_quad : N -> pystr -> Prop :=
| hex_quad_intro a b c d va vb vc vd :
    hex_value a = Some va -> hex_value b = Some vb ->
    hex_value c = Some vc -> hex_value d = Some vd ->
    hex_quad (va * 4096 + vb * 256 + vc * 16 + vd) [a; b; c; d].

(** The character after a backslash in a two-character escape. *)
Definition short_escape (x : char) : option char :=
  if x =? 34 then Some 34          (* quotation mark *)
  else if x =? 92 then Some 92     (* backslash *)
  else if x =? 47 then Some 47     (* solidus *)
  else if x =? 98 then Some 8      (* b: backspace *)
  else if x =? 102 then Some 12    (* f: form feed *)
  else if x =? 110 then Some 10    (* n: line feed *)
  else if x =? 114 then Some 13    (* r: carriage return *)
  else if x =? 116 then Some 9     (* t: tab *)
  else None.

(** [json_chars s e]: the characters [e] between two quotes spell [s]. *)
Inductive json_chars : pystr -> pystr -> Prop :=
| json_chars_nil : json_chars [] []
| json_chars_plain c s e :
    32 <= c -> c <> 34 -> c <> 92 -> c < 0x110000 ->
    json_chars s e -> json_chars (c :: s) (c :: e)
| json_chars_short c x s e :
    short_escape x = Some c ->
    json_chars s e -> json_chars (c :: s) (92 :: x :: e)
| json_chars_unit u q s e :
    hex_quad u q ->
    json_chars s e -> json_chars (u :: s) (92 :: 117 :: q ++ e)
| json_chars_pair hi lo qh ql s e :
    hex_quad hi qh -> hex_quad lo ql ->
    0xD800 <= hi < 0xDC00 -> 0xDC00 <= lo < 0xE000 ->
    json_chars s e ->
    json_chars (0x10000 + (hi - 0xD800) * 0x400 + (lo - 0xDC00) :: s)
               (92 :: 117 :: qh ++ 92 :: 117 :: ql ++ e).

Definition ascii_digit (c : char) : bool := (48 <=? c) && (c <=? 57).

(** The integer part of a number: one zero, or digits with no leading
    zero. *)
Inductive json_int : pystr -> Prop :=
| json_int_zero : json_int [48]
| json_int_digits c ds :
    49 <= c <= 57 -> forallb ascii_digit ds = true -> json_int (c :: ds).

(** The number a run of decimal digits spells, read from the left: each
    digit counts for its distance from the character 0. *)
Definition decimal_value (ds : pystr) : Z :=
  fold_left (fun acc c => (10 * acc + (Z.of_N c - 48))%Z) ds 0%Z.

Definition blank (w : pystr) : Prop := forallb is_ws w = true.

(** [json_value v t]: the text [t] is a JSON value denoting [v];
    [json_element] allows white space around it.  An integer is the
    number its digits spell, negated after a minus sign.  Members of an
    object are listed in the order of the text. *)
Inductive json_value : pyval -> pystr -> Prop :=
| json_null : json_value PNone (str "null")
| json_true : json_value (PBool true) (str "true")
| json_false : json_value (PBool false) (str "false")
| json_number_plus ds :
    json_int ds -> json_value (PInt (decimal_value ds)) ds
| json_number_minus ds :
    json_int ds -> json_value (PInt (- decimal_value ds)) (45 :: ds)
| json_string s e :
    json_chars s e -> json_value (PStr s) (34 :: e ++ [34])
| json_array_empty w :
    blank w -> json_value (PList []) (91 :: w ++ [93])
| json_array l t :
    json_elements l t -> json_value (PList l) (91 :: t ++ [93])
| json_object_empty w :
    blank w -> json_value (PDict []) (123 :: w ++ [125])
| json_object d t :
    json_members d t -> json_value (PDict d) (123 :: t ++ [125])
with json_element : pyval -> pystr -> Prop :=
| json_padded v w1 t w2 :
    blank w1 -> json_value v t -> blank w2 ->
    json_element v (w1 ++ t ++ w2)
with json_elements : list pyval -> pystr -> Prop :=
| json_elements_last v t :
    json_element v t -> json_elements [v] t
| json_elements_more v t l ts :
    json_element v t -> json_elements l ts ->
    json_elements (v :: l) (t ++ 44 :: ts)
with json_members : list (pystr * pyval) -> pystr -> Prop :=
| json_members_last k v t :
    json_member k v t -> json_members [(k, v)] t
| json_members_more k v t d ts :
    json_member k v t -> json_members d ts ->
    json_members ((k, v) :: d) (t ++ 44 :: ts)
with json_member : pystr -> pyval -> pystr -> Prop :=
| json_keyed k e w1 w2 v t :
    blank w1 -> json_chars k e -> blank w2 -> json_element v t ->
    json_member k v (w1 ++ 34 :: e ++ 34 :: w2 ++ 58 :: t).

(** The grammar itself, with every form of number. *)

Definition digits (ds : pystr) : Prop :=
  ds <> [] /\ forallb ascii_digit ds = true.

Inductive json_frac : pystr -> Prop :=
| json_frac_none : json_frac []
| json_frac_some ds : digits ds -> json_frac (46 :: ds).

Inductive json_exp : pystr -> Prop :=
| json_exp_none : json_exp []
| json_exp_some e sign ds :
    e = 101 \/ e = 69 -> sign = [] \/ sign = [43] \/ sign = [45] ->
    digits ds -> json_exp (e :: sign ++ ds).

Inductive json_numeral : pystr -> Prop :=
| json_numeral_intro minus i f e :
    minus = [] \/ minus = [45] ->
    json_int i -> json_frac f -> json_exp e ->
    json_numeral (minus ++ i ++ f ++ e).

Inductive json_text : pystr -> Prop :=
| json_text_null : json_text (str "null")
| json_text_true : json_text (str "true")
| json_text_false : json_text (str "false")
| json_text_number t : json_numeral t -> json_text t
| json_text_string s e : json_chars s e -> json_text (34 :: e ++ [34])
| json_text_array_empty w : blank w -> json_text (91 :: w ++ [93])
| json_text_array t : json_text_elements t -> json_text (91 :: t ++ [93])
| json_text_object_empty w : blank w -> json_text (123 :: w ++ [125])
| json_text_object t : json_text_members t -> json_text (123 :: t ++ [125])
with json_text_element : pystr -> Prop :=
| json_text_padded w1 t w2 :
    blank w1 -> json_text t -> blank w2 -> json_text_element (w1 ++ t ++ w2)
with json_text_elements : pystr -> Prop :=
| json_text_elements_last t : json_text_element t -> json_text_elements t
| json_text_elements_more t ts :
    json_text_element t -> json_text_elements ts ->
    json_text_elements (t ++ 44 :: ts)
with json_text_members : pystr -> Prop :=
| json_text_members_last t : json_text_member t -> json_text_members t
| json_text_members_more t ts :
    json_text_member t -> json_text_members ts ->
    json_text_members (t ++ 44 :: ts)
with json_text_member : pystr -> Prop :=
| json_text_keyed k e w1 w2 t :
    blank w1 -> json_chars k e -> blank w2 -> json_text_element t ->
    json_text_member (w1 ++ 34 :: e ++ 34 :: w2 ++ 58 :: t).

(** A JSON document: one value with white space around it. *)
Definition valid_json (t : pystr) : Prop := json_text_element t.

(** ** Further vocabulary for the properties of the script *)

(** A hyphen or an underscore. *)
Definition is_separator (c : char) : bool := (c =? 45) || (c =? 95).

(** The name begins with a hyphen or underscore that a digit follows. *)
Definition starts_with_shard (s : pystr) : bool :=
  match s with
  | c :: d :: _ => is_separator c && is_decimal d
  | _ => false
  end.

(** Somewhere in the name a hyphen or underscore is followed by a digit. *)
Fixpoint has_shard (s : pystr) : bool :=
  match s with
  | [] => false
  | _ :: s' => starts_with_shard s || has_shard s'
  end.

(** Null, a string, a list or a dict: a value that is no number of any
    kind, which no addition accepts next to an [int]. *)
Definition not_a_number (v : pyval) : bool :=
  match v with
  | PNone | PStr _ | PList _ | PDict _ => true
  | PBool _ | PInt _ => false
  end.



(** A client that records the arguments of its calls in its state. *)
Definition log_key : pystr -> list pystr -> result unit * list pystr :=
  fun key log => (inr tt, log ++ [key]).

Definition log_reject : pystr -> list pystr -> result unit * list pystr :=
  fun key log => (inl (ClientError (str "invalid API key")), log ++ [key]).

Definition log_listing (files : list record) :
    pystr -> list pystr -> result (list record) * list pystr :=
  fun id log => (inr files, log ++ [id]).

Definition log_unreachable :
    pystr -> list pystr -> result (list record) * list pystr :=
  fun id log => (inl (ClientError (str "connection refused")), log ++ [id]).

(** A record whose link is null and whose size is a string. *)
Definition loose_record : record :=
  <[str "link" := PNone]>
  (<[str "file_name" := PStr (str "events_7.json")]>
  (<[str "file_extension" := PInt 3]>
  (<[str "partition_key" := PList [PStr (str "day")]]>
  (<[str "file_size_bytes" := PBool true]> ∅)))).

(** A well-formed record whose size has 4301 digits. *)
Definition huge_record : record :=
  make_record "https://files.example/all.bin" "all.bin" ".bin" PNone (10 ^ 4300).

Definition text_size_record : record :=
  <[str "file_size_bytes" := PStr (str "120")]>
    (make_record "https://files.example/sales-data_3.csv" "sales-data_3.csv"
       ".csv" PNone 0).

(** * Properties *)

(** ** The matcher *)

Lemma match_star_nil k p : match_here (Star k :: p) [] = match_here p [].
Proof. reflexivity. Qed.

Lemma match_star_cons k p c s :
  match_here (Star k :: p) (c :: s) =
  if in_charset k c then
    match match_here (Star k :: p) s with
    | Some r => Some r
    | None => match_here p (c :: s)
    end
  else match_here p (c :: s).
Proof. reflexivity. Qed.

Lemma match_one_cons k p c s :
  match_here (One k :: p) (c :: s) =
  if in_charset k c then match_here p s else None.
Proof. reflexivity. Qed.

Lemma sub_scan_cons p repl c s :
  sub_scan p repl 0 (c :: s) =
  match match_len p (c :: s) with
  | Some (S n) => repl ++ sub_scan p repl n s
  | _ => c :: sub_scan p repl 0 s
  end.
Proof. reflexivity. Qed.

(** A match ends inside the input: what is left is a suffix of it. *)
Lemma match_here_suffix p s r : match_here p s = Some r -> r `suffix_of` s.
Proof.
  revert s r. induction p as [|i p IH]; intros s r.
  - intros [= ->]. reflexivity.
  - destruct i as [k|k|].
    + destruct s as [|c s]; simpl; [discriminate|].
      destruct (in_charset k c); [|discriminate].
      intros H. apply suffix_cons_r, IH, H.
    + induction s as [|c s IHs].
      * rewrite match_star_nil. apply IH.
      * rewrite match_star_cons.
        destruct (in_charset k c); [|apply IH].
        destruct (match_here (Star k :: p) s) as [r'|] eqn:E; [|apply IH].
        intros [= ->]. apply suffix_cons_r, IHs. reflexivity.
    + simpl. destruct (at_end s); [apply IH|discriminate].
Qed.

(** Neither pattern of the script matches the empty string. *)
Lemma shard_suffix_consumes s r :
  match_here shard_suffix s = Some r -> (length r + 2 <= length s)%nat.
Proof.
  unfold shard_suffix.
  destruct s as [|c [|d s]]; try discriminate.
  - rewrite match_one_cons. destruct (in_charset _ c); discriminate.
  - rewrite !match_one_cons.
    destruct (in_charset _ c); [|discriminate].
    destruct (in_charset _ d); [|discriminate].
    intros H%match_here_suffix%suffix_length. simpl. lia.
Qed.

Lemma data_suffix_consumes s r :
  match_here data_suffix s = Some r -> (length r + 5 <= length s)%nat.
Proof.
  unfold data_suffix.
  destruct s as [|c1 [|c2 [|c3 [|c4 [|c5 s]]]]]; rewrite ?match_one_cons;
    repeat match goal with
           | |- context [in_charset ?k ?c] => destruct (in_charset k c)
           end; try discriminate.
  intros H%match_here_suffix%suffix_length. simpl. lia.
Qed.

(** Once a match covers the rest of the input nothing more is copied. *)
Lemma sub_scan_skip p repl s k :
  (length s <= k)%nat -> sub_scan p repl k s = [].
Proof.
  revert k. induction s as [|c s IH]; intros k Hk; [reflexivity|].
  simpl in Hk. destruct k as [|k]; [lia|].
  simpl. apply IH. lia.
Qed.

(** With an empty replacement only characters of the input remain. *)
Lemma sub_scan_elem p s k c : c ∈ sub_scan p [] k s -> c ∈ s.
Proof.
  revert k. induction s as [|a s IH]; intros k; [trivial|].
  destruct k as [|k].
  - rewrite sub_scan_cons.
    destruct (match_len p (a :: s)) as [[|n]|].
    + intros [->|H]%elem_of_cons; [left|right; eauto].
    + simpl. intros H. right. eauto.
    + intros [->|H]%elem_of_cons; [left|right; eauto].
  - simpl. intros H. right. eauto.
Qed.

(** ** First cleanup on a name without line feed *)

Lemma rest_of_line s :
  LF ∉ s -> match_here [Star AnyChar; EndOfString] s = Some [].
Proof.
  induction s as [|c s IH]; intros Hs; [reflexivity|].
  apply not_elem_of_cons in Hs as [Hc Hs].
  rewrite match_star_cons, (IH Hs). simpl.
  destruct (N.eqb_spec c LF); [congruence|reflexivity].
Qed.

Lemma shard_match_line c d s :
  LF ∉ s ->
  match_here shard_suffix (c :: d :: s) =
  if ((c =? 45) || (c =? 95)) && is_decimal d then Some [] else None.
Proof.
  intros Hs. unfold shard_suffix.
  rewrite !match_one_cons, (rest_of_line s Hs). cbn [in_charset].
  change (existsb (N.eqb c) (str "-_")) with ((c =? 45) || ((c =? 95) || false)).
  rewrite orb_false_r.
  destruct ((c =? 45) || (c =? 95)); [|reflexivity].
  destruct (is_decimal d); reflexivity.
Qed.

Lemma shard_match_short c : match_len shard_suffix [c] = None.
Proof.
  unfold match_len, shard_suffix. rewrite match_one_cons.
  destruct (in_charset _ c); reflexivity.
Qed.

Lemma re_sub_shard_line s :
  LF ∉ s -> re_sub shard_suffix [] s = spec_strip_shard s.
Proof.
  unfold re_sub. induction s as [|c s IH]; intros Hs; [reflexivity|].
  apply not_elem_of_cons in Hs as [Hc Hs]. specialize (IH Hs).
  rewrite sub_scan_cons. destruct s as [|d s].
  - rewrite shard_match_short. reflexivity.
  - apply not_elem_of_cons in Hs as [Hd Hs].
    unfold match_len. rewrite (shard_match_line c d s Hs).
    cbn [spec_strip_shard].
    destruct (((c =? 45) || (c =? 95)) && is_decimal d).
    + cbn [length Nat.sub app]. apply sub_scan_skip. simpl. lia.
    + rewrite IH. reflexivity.
Qed.

Lemma spec_strip_shard_prefix s : spec_strip_shard s `prefix_of` s.
Proof.
  induction s as [|c s IH]; [reflexivity|].
  cbn [spec_strip_shard]. destruct s as [|d s]; [reflexivity|].
  destruct (((c =? 45) || (c =? 95)) && is_decimal d).
  - apply prefix_nil.
  - apply prefix_cons, IH.
Qed.

(** ** Second cleanup on a name without line feed *)

Lemma at_end_line s : LF ∉ s -> at_end s = bool_decide (s = []).
Proof.
  destruct s as [|c [|d s]]; intros Hs; try reflexivity.
  apply not_elem_of_cons in Hs as [Hc _]. simpl.
  destruct (N.eqb_spec c LF); [congruence|reflexivity].
Qed.

Lemma data_match_line s :
  LF ∉ s ->
  match_here data_suffix s = if decide (s = str "-data") then Some [] else None.
Proof.
  intros Hs. unfold data_suffix.
  change (str "-data") with [45; 100; 97; 116; 97].
  destruct s as [|c1 [|c2 [|c3 [|c4 [|c5 r]]]]];
    rewrite ?match_one_cons; cbn [in_charset];
    repeat match goal with
           | |- context [N.eqb ?a ?b] => destruct (N.eqb_spec a b); subst
           end;
    try (cbn [match_here]; case_decide; congruence).
  cbn [match_here]. rewrite at_end_line.
  - case_bool_decide; case_decide; simplify_eq; reflexivity.
  - intros H. apply Hs. do 5 right. exact H.
Qed.

Lemma spec_strip_data_cons c s :
  c :: s <> str "-data" ->
  spec_strip_data (c :: s) = c :: spec_strip_data s.
Proof.
  intros Hne. unfold spec_strip_data.
  destruct (decide (str "-data" `suffix_of` s)) as [Hs|Hs].
  - rewrite decide_True by (apply suffix_cons_r, Hs).
    apply suffix_length in Hs. change (length (str "-data")) with 5%nat in Hs.
    cbn [length]. replace (S (length s) - 5)%nat with (S (length s - 5)) by lia.
    reflexivity.
  - rewrite decide_False; [reflexivity|].
    intros [H|H]%suffix_cons_inv; [exact (Hne (eq_sym H))|contradiction].
Qed.

Lemma re_sub_data_line s :
  LF ∉ s -> re_sub data_suffix [] s = spec_strip_data s.
Proof.
  unfold re_sub. induction s as [|c s IH]; intros Hs; [reflexivity|].
  rewrite sub_scan_cons. unfold match_len. rewrite (data_match_line _ Hs).
  apply not_elem_of_cons in Hs as [Hc Hs].
  case_decide as E.
  - change (str "-data") with [45; 100; 97; 116; 97] in E.
    injection E as -> ->. reflexivity.
  - rewrite (IH Hs), spec_strip_data_cons by exact E. reflexivity.
Qed.

Lemma spec_strip_data_prefix s : spec_strip_data s `prefix_of` s.
Proof.
  unfold spec_strip_data. case_decide; [apply prefix_take|reflexivity].
Qed.

(** ** Both cleanups *)

Lemma line_prefix (p s : pystr) : p `prefix_of` s -> LF ∉ s -> LF ∉ p.
Proof. intros Hp Hs Hin. apply Hs. eapply elem_of_prefix; eassumption. Qed.

Lemma parent_folder_line s :
  LF ∉ s -> parent_folder s = spec_parent_folder s.
Proof.
  intros Hs. unfold parent_folder, spec_parent_folder.
  rewrite (re_sub_shard_line s Hs).
  apply re_sub_data_line.
  exact (line_prefix _ _ (spec_strip_shard_prefix s) Hs).
Qed.

Lemma spec_parent_folder_prefix s : spec_parent_folder s `prefix_of` s.
Proof.
  unfold spec_parent_folder.
  etransitivity; [apply spec_strip_data_prefix|apply spec_strip_shard_prefix].
Qed.

(** A name in which no hyphen or underscore is followed by a digit is
    left alone by the first cleanup of the specification. *)
Lemma spec_strip_shard_id s :
  (forall i c d, s !! i = Some c -> s !! S i = Some d ->
     ((c =? 45) || (c =? 95)) && is_decimal d = false) ->
  spec_strip_shard s = s.
Proof.
  induction s as [|c s IH]; intros H; [reflexivity|].
  cbn [spec_strip_shard]. destruct s as [|d s]; [reflexivity|].
  rewrite (H 0%nat c d) by reflexivity.
  f_equal. apply IH. intros i a b Ha Hb. exact (H (S i) a b Ha Hb).
Qed.

(** ** Names with line feeds *)

(** A pattern that ends in [$] leaves nothing, or one final line feed. *)
Lemma match_here_at_end p s r :
  match_here (p ++ [EndOfString]) s = Some r -> at_end r = true.
Proof.
  revert s r. induction p as [|i p IH]; intros s r.
  - simpl. destruct (at_end s) eqn:E; [|discriminate]. intros [= <-]. exact E.
  - destruct i as [k|k|]; cbn [app].
    + destruct s as [|c s]; [discriminate|]. rewrite match_one_cons.
      destruct (in_charset k c); [apply IH|discriminate].
    + induction s as [|c s IHs].
      * rewrite match_star_nil. apply IH.
      * rewrite match_star_cons.
        destruct (in_charset k c); [|apply IH].
        destruct (match_here (Star k :: p ++ [EndOfString]) s) as [r'|] eqn:E;
          [|apply IH].
        intros [= ->]. apply IHs. reflexivity.
    + simpl. destruct (at_end s); [apply IH|discriminate].
Qed.

Lemma at_end_cases s : at_end s = true -> s = [] \/ s = [LF].
Proof.
  destruct s as [|c [|d s]]; simpl; auto; [|discriminate].
  destruct (N.eqb_spec c LF) as [->|]; [auto|discriminate].
Qed.

(** With an empty replacement the result is the input with characters
    deleted: nothing is inserted, replaced or moved. *)
Lemma sub_scan_sublist p s k : sub_scan p [] k s `sublist_of` s.
Proof.
  revert k. induction s as [|a s IH]; intros k; [constructor|].
  destruct k as [|k].
  - rewrite sub_scan_cons.
    destruct (match_len p (a :: s)) as [[|n]|];
      [apply sublist_skip|apply sublist_cons|apply sublist_skip]; apply IH.
  - simpl. apply sublist_cons, IH.
Qed.

Lemma sub_scan_skip_to_last p repl (m : pystr) x :
  sub_scan p repl (length m) (m ++ [x]) = sub_scan p repl 0 [x].
Proof. induction m as [|c m IH]; [reflexivity|exact IH]. Qed.

Lemma re_sub_end_shape p s :
  (forall s r, match_here p s = Some r -> at_end r = true) ->
  match_len p [LF] = None ->
  exists q, q `prefix_of` s /\ (re_sub p [] s = q \/ re_sub p [] s = q ++ [LF]).
Proof.
  intros Hend Hlf. unfold re_sub.
  induction s as [|c s (q & Hq & IH)]; [exists []; split; [reflexivity|left; reflexivity]|].
  rewrite sub_scan_cons. unfold match_len.
  destruct (match_here p (c :: s)) as [r|] eqn:E.
  - pose proof (match_here_suffix _ _ _ E) as [k Hk].
    destruct (length (c :: s) - length r)%nat as [|n] eqn:En.
    + exists (c :: q). split; [apply prefix_cons, Hq|].
      destruct IH as [->| ->]; [left|right]; reflexivity.
    + exists []. split; [apply prefix_nil|]. cbn [app].
      destruct (at_end_cases r (Hend _ _ E)) as [->| ->].
      * left. apply sub_scan_skip. simpl in En. lia.
      * right. destruct k as [|c' m]; [simpl in Hk; injection Hk as -> ->; simpl in En; lia|].
        simpl in Hk. injection Hk as -> ->.
        cbn [length] in En. rewrite length_app in En. cbn [length] in En.
        assert (n = length m) as -> by lia.
        rewrite sub_scan_skip_to_last. simpl. rewrite Hlf. reflexivity.
  - exists (c :: q). split; [apply prefix_cons, Hq|].
    destruct IH as [->| ->]; [left|right]; reflexivity.
Qed.

Lemma parent_folder_sublist s : parent_folder s `sublist_of` s.
Proof.
  unfold parent_folder, re_sub.
  etransitivity; apply sub_scan_sublist.
Qed.

(** In general the folder name is a prefix of the file name, possibly
    with one line feed after it. *)
Lemma parent_folder_shape s :
  exists q, q `prefix_of` s
            /\ (parent_folder s = q \/ parent_folder s = q ++ [LF]).
Proof.
  destruct (re_sub_end_shape shard_suffix s) as (q1 & Hq1 & H1);
    [exact (match_here_at_end [One (OneOf (str "-_")); One Digit; Star AnyChar])
    |reflexivity|].
  destruct (re_sub_end_shape data_suffix (re_sub shard_suffix [] s))
    as (q2 & Hq2 & H2);
    [exact (match_here_at_end
              [One (Lit 45); One (Lit 100); One (Lit 97); One (Lit 116);
               One (Lit 97)])
    |reflexivity|].
  fold (parent_folder s) in H2.
  destruct H1 as [E1|E1]; rewrite E1 in Hq2.
  - exists q2. split; [etransitivity; eassumption|exact H2].
  - destruct Hq2 as [k Hk].
    destruct (decide (k = [])) as [->|Hk'].
    + rewrite app_nil_r in Hk. subst q2. exists q1. split; [exact Hq1|].
      right. destruct H2 as [H2|H2]; [exact H2|exfalso].
      pose proof (sublist_length _ _ (sub_scan_sublist data_suffix
                    (re_sub shard_suffix [] s) 0)) as Hlen.
      fold (re_sub data_suffix [] (re_sub shard_suffix [] s)) in Hlen.
      fold (parent_folder s) in Hlen.
      rewrite H2, E1, !length_app in Hlen. simpl in Hlen. lia.
    + exists q2. split; [|exact H2].
      assert (exists k', k = k' ++ [LF]) as [k' ->].
      { destruct (exists_last Hk') as (k' & x & ->). exists k'.
        rewrite app_assoc in Hk. apply app_inj_tail in Hk as [_ ->]. reflexivity. }
      rewrite app_assoc in Hk. apply app_inj_tail in Hk as [-> _].
      etransitivity; [apply prefix_app_r; reflexivity|exact Hq1].
Qed.

(** ** The mapping handed to json.dumps *)

Lemma comprehension_lookup (key : pystr) (files : list record) (urls : list pyval) :
  comprehension (fun f => getitem f key) files = inr urls
  <-> Forall2 (fun (f : record) u => f !! key = Some u) files urls.
Proof.
  revert urls. induction files as [|f files IH]; intros urls; simpl.
  - split; [intros [= <-]; constructor|intros H; inversion H; reflexivity].
  - unfold getitem at 1. destruct (f !! key) as [u|] eqn:E; simpl.
    + destruct (comprehension _ files) as [e|us] eqn:C; simpl.
      * split; [discriminate|].
        intros H. inversion H as [|? ? ? us' ? Hus]; subst.
        apply IH in Hus. discriminate.
      * split.
        -- intros [= <-]. constructor; [exact E|]. apply IH. reflexivity.
        -- intros H. inversion H as [|? u' ? us' Hu Hus]; subst.
           apply IH in Hus. congruence.
    + split; [discriminate|].
      intros H. inversion H; subst. congruence.
Qed.

Lemma comprehension_error (key : pystr) (files : list record) (e : exn) :
  comprehension (fun f => getitem f key) files = inl e -> e = KeyError key.
Proof.
  induction files as [|f files IH]; simpl; [discriminate|].
  unfold getitem at 1. destruct (f !! key); simpl; [|congruence].
  destruct (comprehension _ files); simpl; [|discriminate].
  intros [= <-]. apply IH. reflexivity.
Qed.

Lemma sum_sizes_value (acc : Z) (files : list record) (total : Z) :
  sum_sizes acc files = inr total
  <-> exists sizes, Forall2 size_is files sizes /\ total = (acc + Zsum sizes)%Z.
Proof.
  unfold size_is, field_is.
  revert acc. induction files as [|f files IH]; intros acc; simpl.
  - split.
    + intros [= <-]. exists []. split; [constructor|simpl; lia].
    + intros (sizes & H & ->). inversion H. simpl. f_equal. lia.
  - unfold getitem, int_add.
    destruct (f !! str "file_size_bytes") as [v|] eqn:E; simpl.
    + destruct (as_int v) as [z|] eqn:Ez; simpl.
      * rewrite IH. split.
        -- intros (sizes & H & ->). exists (z :: sizes).
           split; [constructor; eauto|simpl; lia].
        -- intros (sizes & H & ->).
           inversion H as [|? z' ? sizes' (v' & Hv' & Hz') Hrest]; subst.
           assert (z' = z) as -> by congruence.
           exists sizes'. split; [assumption|simpl; lia].
      * split; [discriminate|].
        intros (sizes & H & _).
        inversion H as [|? z' ? sizes' (v' & Hv' & Hz') Hrest]; subst.
        congruence.
    + split; [discriminate|].
      intros (sizes & H & _).
      inversion H as [|? z' ? sizes' (v' & Hv' & Hz') Hrest]; subst.
      congruence.
Qed.

Lemma sum_sizes_error (acc : Z) (files : list record) (e : exn) :
  (forall f v, f ∈ files ->
     f !! str "file_size_bytes" = Some v -> exists z, as_int v = Some z) ->
  sum_sizes acc files = inl e -> e = KeyError (str "file_size_bytes").
Proof.
  revert acc. induction files as [|f files IH]; intros acc Hty; simpl;
    [discriminate|].
  unfold getitem, int_add.
  destruct (f !! str "file_size_bytes") as [v|] eqn:E; simpl; [|congruence].
  destruct (Hty f v) as [z ->]; [left|exact E|]. simpl.
  apply IH. intros g x Hg. apply Hty. right. exact Hg.
Qed.

Ltac run_result := cbn [result_bind index nth_error py_re_sub].

(** The mapping is built exactly when every field the script reads is
    there, file_name is a [str] and the sizes count as integers. *)
Lemma summary_value (files : list record) (d : pyval) :
  summary files = inr d
  <-> exists f0 rest urls name ext pk sizes,
        files = f0 :: rest
        /\ Forall2 (field_is "link") files urls
        /\ field_is "file_name" f0 (PStr name)
        /\ field_is "file_extension" f0 ext
        /\ field_is "partition_key" f0 pk
        /\ Forall2 size_is files sizes
        /\ d = mapping urls (PStr (parent_folder name)) ext pk (Zsum sizes).
Proof.
  unfold summary, field_is, mapping. split.
  - destruct (comprehension _ files) as [e|urls] eqn:Eu; run_result; [discriminate|].
    apply comprehension_lookup in Eu.
    destruct files as [|f0 rest]; run_result; [discriminate|].
    unfold getitem.
    destruct (f0 !! str "file_name") as [[| | |name| |]|] eqn:En; run_result;
      try discriminate.
    destruct (f0 !! str "file_extension") as [ext|] eqn:Ee; run_result;
      [|discriminate].
    destruct (f0 !! str "partition_key") as [pk|] eqn:Ep; run_result;
      [|discriminate].
    destruct (sum_sizes 0 (f0 :: rest)) as [e|total] eqn:Es; run_result; [discriminate|].
    apply sum_sizes_value in Es as (sizes & Hsizes & ->).
    intros [= <-]. exists f0, rest, urls, name, ext, pk, sizes.
    repeat split; assumption.
  - intros (f0 & rest & urls & name & ext & pk & sizes
            & -> & Hu & Hn & He & Hp & Hs & ->).
    apply comprehension_lookup in Hu. rewrite Hu. run_result.
    unfold getitem. rewrite Hn. run_result. rewrite He. run_result. rewrite Hp. run_result.
    assert (Es : sum_sizes 0 (f0 :: rest) = inr (Zsum sizes)).
    { apply sum_sizes_value. exists sizes. split; [exact Hs|lia]. }
    rewrite Es. reflexivity.
Qed.

(** Without the first record the mapping is never built. *)
Lemma summary_empty : summary [] = inl IndexError.
Proof. reflexivity. Qed.

(** On a non-empty listing whose present fields have the types the
    script relies on, the only exception is the lookup of an absent key. *)
Lemma summary_error (files : list record) (e : exn) :
  files <> [] -> typed_where_present files ->
  summary files = inl e ->
  exists key, e = KeyError (str key)
    /\ key ∈ ["link"; "file_name"; "file_extension"; "partition_key";
              "file_size_bytes"]%string.
Proof.
  intros Hne [Hname Hsize]. destruct files as [|f0 rest]; [contradiction|].
  unfold summary.
  destruct (comprehension _ (f0 :: rest)) as [e1|urls] eqn:Eu.
  { run_result. intros [= <-]. apply comprehension_error in Eu.
    exists "link"%string. split; [exact Eu|repeat constructor]. }
  run_result. unfold getitem at 1.
  destruct (f0 !! str "file_name") as [v|] eqn:En; run_result.
  2:{ intros [= <-]. exists "file_name"%string. split; [reflexivity|repeat constructor]. }
  destruct (Hname f0 rest v eq_refl En) as [name ->]. run_result.
  unfold getitem at 1.
  destruct (f0 !! str "file_extension") as [ext|]; run_result.
  2:{ intros [= <-]. exists "file_extension"%string. split; [reflexivity|repeat constructor]. }
  unfold getitem at 1.
  destruct (f0 !! str "partition_key") as [pk|]; run_result.
  2:{ intros [= <-]. exists "partition_key"%string. split; [reflexivity|repeat constructor]. }
  destruct (sum_sizes 0 (f0 :: rest)) as [e1|total] eqn:Es; run_result; [|discriminate].
  intros [= <-]. apply sum_sizes_error in Es; [|exact Hsize].
  exists "file_size_bytes"%string. split; [exact Es|repeat constructor].
Qed.

Lemma field_missing_nonempty (files : list record) :
  field_missing files -> files <> [].
Proof.
  intros [(f & Hf & _)|(f0 & rest & -> & _)]; [|discriminate].
  intros ->. inversion Hf.
Qed.

(** A missing field always prevents the mapping. *)
Lemma summary_missing (files : list record) :
  field_missing files -> exists e, summary files = inl e.
Proof.
  intros Hmiss. destruct (summary files) as [e|d] eqn:E; [eauto|exfalso].
  apply summary_value in E
    as (f0 & rest & urls & name & ext & pk & sizes
        & -> & Hu & Hn & He & Hp & Hs & _).
  unfold field_missing, lacks, field_is in *.
  destruct Hmiss as [(f & Hf & [Hl|Hl])|(g & rest' & [= <- <-] & [Hl|[Hl|Hl]])];
    try congruence.
  - apply list_elem_of_lookup in Hf as [i Hi].
    destruct (Forall2_lookup_l _ _ _ _ _ Hu Hi) as (u & _ & Hfu). congruence.
  - apply list_elem_of_lookup in Hf as [i Hi].
    destruct (Forall2_lookup_l _ _ _ _ _ Hs Hi) as (u & _ & v & Hfu & _).
    unfold field_is in Hfu. congruence.
Qed.

(** ** json.dumps writes JSON *)

(** Induction on values that reaches into lists and dicts. *)
Lemma pyval_nested_ind (P : pyval -> Prop) :
  P PNone ->
  (forall b, P (PBool b)) ->
  (forall z, P (PInt z)) ->
  (forall s, P (PStr s)) ->
  (forall l, Forall P l -> P (PList l)) ->
  (forall d, Forall (fun kv : pystr * pyval => P (snd kv)) d -> P (PDict d)) ->
  forall v, P v.
Proof.
  intros Hnone Hbool Hint Hstr Hlist Hdict. fix IH 1. intros [|b|z|s|l|d].
  - exact Hnone.
  - apply Hbool.
  - apply Hint.
  - apply Hstr.
  - apply Hlist. induction l as [|v l IHl]; constructor; [apply IH|exact IHl].
  - apply Hdict.
    induction d as [|[k v] d IHd]; constructor; [apply IH|exact IHd].
Qed.

Lemma hex_digit_value d : d < 16 -> hex_value (hex_digit d) = Some d.
Proof.
  intros Hd. unfold hex_digit, hex_value.
  destruct (N.ltb_spec d 10);
    repeat match goal with
           | |- context [N.leb ?a ?b] => destruct (N.leb_spec a b)
           end; cbn [andb]; try lia; f_equal; lia.
Qed.

Lemma hex4_quad u : u < 0x10000 -> hex_quad u (hex4 u).
Proof.
  intros Hu.
  assert (E : u = (u / 4096 mod 16) * 4096 + (u / 256 mod 16) * 256
                  + (u / 16 mod 16) * 16 + u mod 16).
  { zify. Z.to_euclidean_division_equations. lia. }
  rewrite E at 1. unfold hex4.
  constructor; apply hex_digit_value, N.mod_lt; discriminate.
Qed.

Lemma land_above (h y : N) : y < 1024 -> N.land (h * 1024) y = 0.
Proof.
  intros Hy. apply N.bits_inj. intros i. rewrite N.land_spec, N.bits_0.
  change 1024 with (2 ^ 10) in *.
  destruct (N.lt_ge_cases i 10) as [Hi|Hi].
  - rewrite N.mul_pow2_bits_low by exact Hi. reflexivity.
  - rewrite (N.bits_above_log2 y i), andb_false_r; [reflexivity|].
    destruct (N.eq_dec y 0) as [->|Hy0]; [simpl; lia|].
    apply N.log2_lt_pow2; [lia|].
    eapply N.lt_le_trans; [exact Hy|].
    apply N.pow_le_mono_r; [discriminate|exact Hi].
Qed.

Lemma lor_above (h y : N) : y < 1024 -> N.lor (h * 1024) y = h * 1024 + y.
Proof.
  intros Hy. rewrite N.add_nocarry_lxor by (apply land_above, Hy).
  symmetry. apply N.lxor_lor, land_above, Hy.
Qed.

(** The surrogate pair written for an astral code point spells it. *)
Lemma surrogate_pair c :
  0x10000 <= c -> c < 0x110000 ->
  let n := c - 0x10000 in
  let hi := N.lor 0xD800 (N.land (N.shiftr n 10) 0x3FF) in
  let lo := N.lor 0xDC00 (N.land n 0x3FF) in
  0xD800 <= hi < 0xDC00 /\ 0xDC00 <= lo < 0xE000
  /\ c = 0x10000 + (hi - 0xD800) * 0x400 + (lo - 0xDC00).
Proof.
  intros Hlo Hhi n.
  assert (Ec : c = n + 0x10000) by (unfold n; lia).
  assert (Hn : n < 1024 * 1024) by (unfold n; lia).
  clearbody n.
  assert (Hq : n / 1024 < 1024) by (apply N.Div0.div_lt_upper_bound; exact Hn).
  assert (Hr : n mod 1024 < 1024) by (apply N.mod_lt; discriminate).
  assert (Eh : N.lor 0xD800 (N.land (N.shiftr n 10) 0x3FF) = 0xD800 + n / 1024).
  { change 0x3FF with (N.ones 10).
    rewrite N.land_ones, N.shiftr_div_pow2. change (2 ^ 10) with 1024.
    change 0xD800 with (54 * 1024).
    rewrite lor_above by (apply N.mod_lt; discriminate).
    f_equal. apply N.mod_small, Hq. }
  assert (El : N.lor 0xDC00 (N.land n 0x3FF) = 0xDC00 + n mod 1024).
  { change 0x3FF with (N.ones 10).
    rewrite N.land_ones. change (2 ^ 10) with 1024.
    change 0xDC00 with (55 * 1024).
    rewrite lor_above by (apply N.mod_lt; discriminate). reflexivity. }
  pose proof (N.div_mod n 1024 ltac:(discriminate)) as Hdm.
  cbv zeta. rewrite Eh, El. clear Eh El. revert Hq Hr Hdm.
  generalize (n / 1024) (n mod 1024). intros q r Hq Hr Hdm. lia.
Qed.

Lemma escape_char_spells c s e :
  c < 0x110000 -> json_chars s e -> json_chars (c :: s) (escape_char c ++ e).
Proof.
  intros Hc Hs. unfold escape_char.
  destruct (N.eqb_spec c 34) as [->|?]; [apply (json_chars_short 34 34); auto|].
  destruct (N.eqb_spec c 92) as [->|?]; [apply (json_chars_short 92 92); auto|].
  destruct (N.eqb_spec c 10) as [->|?]; [apply (json_chars_short 10 110); auto|].
  destruct (N.eqb_spec c 13) as [->|?]; [apply (json_chars_short 13 114); auto|].
  destruct (N.eqb_spec c 9) as [->|?]; [apply (json_chars_short 9 116); auto|].
  destruct (N.eqb_spec c 12) as [->|?]; [apply (json_chars_short 12 102); auto|].
  destruct (N.eqb_spec c 8) as [->|?]; [apply (json_chars_short 8 98); auto|].
  destruct (N.leb_spec 32 c); destruct (N.leb_spec c 126); cbn [andb];
    try (apply json_chars_plain; [lia|assumption|assumption|lia|assumption]).
  all: destruct (N.ltb_spec c 0x10000);
    try (apply json_chars_unit; [apply hex4_quad; assumption|assumption]).
  all: destruct (surrogate_pair c) as (Hh & Hl & E); [lia|assumption|];
    cbv zeta; unfold u_escape; rewrite <- app_assoc; cbn [app];
    rewrite E at 1;
    apply json_chars_pair; try assumption; apply hex4_quad; lia.
Qed.

Lemma encode_spells s :
  unicode_str s = true -> json_chars s (flat_map escape_char s).
Proof.
  unfold unicode_str. induction s as [|c s IH]; simpl; [constructor|].
  intros [Hc Hs]%andb_prop. apply escape_char_spells; [|auto].
  apply N.ltb_lt, Hc.
Qed.

Lemma json_dumps_str s :
  unicode_str s = true -> json_value (PStr s) (encode_basestring_ascii s).
Proof. intros H. apply json_string, encode_spells, H. Qed.

Lemma to_uint_literal n : Decimal.unorm (N.to_uint n) = N.to_uint n.
Proof.
  rewrite <- (DecimalN.Unsigned.of_to n) at 2.
  rewrite DecimalN.Unsigned.to_of. reflexivity.
Qed.

Lemma uint_chars_digits u : forallb ascii_digit (uint_chars u) = true.
Proof. induction u; simpl; auto. Qed.

Lemma uint_literal u : Decimal.unorm u = u -> json_int (uint_chars u).
Proof.
  intros Hu. destruct u as [|u|u|u|u|u|u|u|u|u|u]; simpl;
    try (apply json_int_digits; [lia|apply uint_chars_digits]).
  - discriminate Hu.
  - destruct (Decimal.uint_eq_dec u Decimal.Nil) as [->|Hne];
      [apply json_int_zero|exfalso].
    pose proof (DecimalFacts.nb_digits_unorm u Hne) as Hlen.
    rewrite DecimalFacts.unorm_D0 in Hu. rewrite Hu in Hlen.
    simpl in Hlen. lia.
Qed.

(** Reading back the digits written for a number gives the number. *)
Lemma fold_digits_pos u (p : positive) :
  fold_left (fun acc c => (10 * acc + (Z.of_N c - 48))%Z) (uint_chars u) (Z.pos p)
  = Z.pos (Pos.of_uint_acc u p).
Proof.
  revert p. induction u as [|u IH|u IH|u IH|u IH|u IH|u IH|u IH|u IH|u IH|u IH];
    intros p; cbn [uint_chars fold_left Pos.of_uint_acc]; [reflexivity|..];
    rewrite <- IH; f_equal; lia.
Qed.

Lemma decimal_value_uint u :
  decimal_value (uint_chars u) = Z.of_N (N.of_uint u).
Proof.
  unfold decimal_value, N.of_uint.
  induction u as [|u IH|u IH|u IH|u IH|u IH|u IH|u IH|u IH|u IH|u IH];
    cbn [uint_chars fold_left Pos.of_uint]; [reflexivity|exact IH|..];
    exact (fold_digits_pos u _).
Qed.

Lemma decimal_value_digits (n : N) :
  decimal_value (uint_chars (N.to_uint n)) = Z.of_N n.
Proof. rewrite decimal_value_uint, DecimalN.Unsigned.of_to. reflexivity. Qed.

(** The digits [int.__repr__] writes spell the integer it was given. *)
Lemma json_dumps_int z : json_value (PInt z) (int_repr z).
Proof.
  unfold int_repr. destruct z as [|p|p]; cbn [Z.to_int int_chars].
  - exact (json_number_plus [48] json_int_zero).
  - rewrite <- (decimal_value_digits (N.pos p)) at 1.
    apply json_number_plus, uint_literal, (to_uint_literal (N.pos p)).
  - change (Z.neg p) with (- Z.of_N (N.pos p))%Z.
    rewrite <- (decimal_value_digits (N.pos p)).
    apply json_number_minus, uint_literal, (to_uint_literal (N.pos p)).
Qed.

Lemma digit_range c : ascii_digit c = true -> (0 <= Z.of_N c - 48 <= 9)%Z.
Proof.
  unfold ascii_digit. intros [H1 H2]%andb_prop.
  apply N.leb_le in H1, H2. lia.
Qed.

(** The digits after an accumulator: the accumulator moves left by as
    many places as there are digits. *)
Lemma fold_digits_shift (ds : pystr) :
  forallb ascii_digit ds = true ->
  (0 <= decimal_value ds < 10 ^ Z.of_nat (length ds))%Z
  /\ forall acc : Z,
       fold_left (fun acc c => (10 * acc + (Z.of_N c - 48))%Z) ds acc
       = (acc * 10 ^ Z.of_nat (length ds) + decimal_value ds)%Z.
Proof.
  induction ds as [|c ds IH]; intros Hd.
  - split; [cbn; lia|]. intros acc. cbn. lia.
  - cbn [forallb] in Hd. apply andb_prop in Hd as [Hc Hd].
    destruct (IH Hd) as [Hv Hacc]. apply digit_range in Hc.
    unfold decimal_value in *. cbn [fold_left length].
    rewrite Nat2Z.inj_succ, Z.pow_succ_r by lia.
    rewrite (Hacc (10 * 0 + (Z.of_N c - 48))%Z).
    split; [nia|]. intros acc. rewrite Hacc. lia.
Qed.

(** A number written without leading zero is at least the power of ten
    of its length, unless it is the single digit zero. *)
Lemma json_int_magnitude (ds : pystr) :
  json_int ds ->
  (decimal_value ds < 10 ^ Z.of_nat (length ds))%Z
  /\ (ds = [48] \/ (10 ^ Z.of_nat (length ds - 1) <= decimal_value ds)%Z).
Proof.
  intros H. destruct H as [|c ds Hc Hd].
  - split; [cbn; lia|left; reflexivity].
  - assert (Hall : forallb ascii_digit (c :: ds) = true).
    { cbn [forallb]. rewrite Hd. unfold ascii_digit.
      apply andb_true_intro. split; [|reflexivity].
      apply andb_true_intro. split; [apply N.leb_le|apply N.leb_le]; lia. }
    split; [apply (fold_digits_shift _ Hall)|right].
    destruct (fold_digits_shift ds Hd) as [Hv Hacc].
    unfold decimal_value in *. cbn [fold_left length].
    rewrite Hacc. replace (S (length ds) - 1)%nat with (length ds) by lia.
    nia.
Qed.

Lemma int_digits_value (z : Z) : decimal_value (int_digits z) = Z.abs z.
Proof.
  unfold int_digits. rewrite decimal_value_digits. apply N2Z.inj_abs_N.
Qed.

(** The limit in numbers: an integer can be converted exactly when its
    absolute value is below ten to the power of the limit. *)
Lemma int_fits_bound (z : Z) :
  int_fits z = true <-> (Z.abs z < 10 ^ Z.of_nat max_str_digits)%Z.
Proof.
  unfold int_fits. rewrite Nat.leb_le.
  pose proof (json_int_magnitude (int_digits z)
                (uint_literal _ (to_uint_literal (Z.abs_N z)))) as [Hlt Hge].
  rewrite int_digits_value in Hlt, Hge.
  split.
  - intros Hlen. eapply Z.lt_le_trans; [exact Hlt|].
    apply Z.pow_le_mono_r; lia.
  - intros Hz. destruct Hge as [E|Hge]; [rewrite E; unfold max_str_digits; cbn; lia|].
    destruct (le_lt_dec (length (int_digits z)) max_str_digits) as [H|H];
      [exact H|exfalso].
    assert (10 ^ Z.of_nat max_str_digits
            <= 10 ^ Z.of_nat (length (int_digits z) - 1))%Z
      by (apply Z.pow_le_mono_r; lia).
    lia.
Qed.

Lemma padded_value v (w : pystr) :
  blank w -> json_value v (json_dumps v) -> json_element v (w ++ json_dumps v).
Proof.
  intros Hw Hv. rewrite <- (app_nil_r (json_dumps v)).
  apply json_padded; [exact Hw|exact Hv|reflexivity].
Qed.

Lemma join_elements (l : list pyval) (w : pystr) :
  l <> [] -> blank w ->
  Forall (fun v => json_value v (json_dumps v)) l ->
  json_elements l (w ++ join (str ", ") (List.map json_dumps l)).
Proof.
  intros Hne Hw H. revert w Hw.
  induction H as [|v l Hv Hl IH]; [contradiction|]. intros w Hw.
  destruct l as [|v' l'].
  - apply json_elements_last, padded_value; assumption.
  - change (w ++ join (str ", ") (List.map json_dumps (v :: v' :: l')))
      with (w ++ json_dumps v
              ++ 44 :: ([32] ++ join (str ", ") (List.map json_dumps (v' :: l')))).
    rewrite app_assoc.
    apply json_elements_more; [apply padded_value; assumption|].
    apply IH; [discriminate|reflexivity].
Qed.

Lemma keyed_value k v (w : pystr) :
  blank w -> unicode_str k = true -> json_value v (json_dumps v) ->
  json_member k v (w ++ dumps_member (k, v)).
Proof.
  intros Hw Hk Hv. unfold dumps_member, encode_basestring_ascii.
  change (w ++ (34 :: flat_map escape_char k ++ [34]) ++ str ": " ++ json_dumps v)
    with (w ++ 34 :: (flat_map escape_char k ++ [34])
            ++ [] ++ 58 :: ([32] ++ json_dumps v)).
  rewrite <- (app_assoc (flat_map escape_char k) [34]).
  apply json_keyed; [exact Hw|apply encode_spells, Hk|reflexivity|].
  apply padded_value; [reflexivity|exact Hv].
Qed.

Lemma join_members (d : list (pystr * pyval)) (w : pystr) :
  d <> [] -> blank w ->
  Forall (fun kv : pystr * pyval =>
            unicode_str (fst kv) = true
            /\ json_value (snd kv) (json_dumps (snd kv))) d ->
  json_members d (w ++ join (str ", ") (List.map dumps_member d)).
Proof.
  intros Hne Hw H. revert w Hw.
  induction H as [|[k v] d [Hk Hv] Hd IH]; [contradiction|]. intros w Hw.
  destruct d as [|kv' d'].
  - apply json_members_last, keyed_value; assumption.
  - change (w ++ join (str ", ") (List.map dumps_member ((k, v) :: kv' :: d')))
      with (w ++ dumps_member (k, v)
              ++ 44 :: ([32] ++ join (str ", ") (List.map dumps_member (kv' :: d')))).
    rewrite app_assoc.
    apply json_members_more; [apply keyed_value; assumption|].
    apply IH; [discriminate|reflexivity].
Qed.

(** What [json.dumps] writes is a JSON text for the value it was given. *)
Lemma json_dumps_denotes v : unicode v = true -> json_value v (json_dumps v).
Proof.
  induction v as [|b|z|s|l IH|d IH] using pyval_nested_ind; intros Hu.
  - apply json_null.
  - destruct b; constructor.
  - apply json_dumps_int.
  - apply json_dumps_str, Hu.
  - destruct l as [|v l]; [apply (json_array_empty []); reflexivity|].
    apply json_array.
    rewrite <- (app_nil_l (join _ _)).
    apply join_elements; [discriminate|reflexivity|].
    change (forallb unicode (v :: l) = true) in Hu.
    pose proof (proj1 (List.forallb_forall _ _) Hu) as Hall.
    rewrite Forall_forall in IH |- *.
    intros x Hx. apply IH; [exact Hx|]. apply Hall, list_elem_of_In, Hx.
  - destruct d as [|kv d]; [apply (json_object_empty []); reflexivity|].
    apply json_object.
    change (json_members (kv :: d)
              ([] ++ join (str ", ") (List.map dumps_member (kv :: d)))).
    apply join_members; [discriminate|reflexivity|].
    cbn [unicode] in Hu.
    pose proof (proj1 (List.forallb_forall _ _) Hu) as Hall.
    rewrite Forall_forall in IH |- *.
    intros [k x] Hx. specialize (IH _ Hx).
    specialize (Hall (k, x) (proj1 (list_elem_of_In _ _) Hx)).
    apply andb_prop in Hall as [Hk Hx']. split; [exact Hk|apply IH, Hx'].
Qed.

(** ** json.dumps writes printable ASCII, hence one line *)

Lemma printable_line (t : pystr) : Forall printable t -> LF ∉ t.
Proof.
  intros H Hin. rewrite Forall_forall in H.
  specialize (H LF Hin). unfold printable, LF in H. lia.
Qed.

Lemma printable_literal (lit : string) :
  forallb (fun c => (32 <=? c) && (c <=? 126)) (str lit) = true ->
  Forall printable (str lit).
Proof.
  intros H. apply Forall_forall. intros c Hc.
  apply list_elem_of_In in Hc.
  apply (proj1 (List.forallb_forall _ _) H) in Hc.
  apply andb_prop in Hc as [H1 H2].
  apply N.leb_le in H1. apply N.leb_le in H2. split; assumption.
Qed.

Lemma hex_digit_printable d : d < 16 -> printable (hex_digit d).
Proof.
  intros Hd. unfold hex_digit, printable. destruct (d <? 10); lia.
Qed.

Lemma u_escape_printable u : Forall printable (u_escape u).
Proof.
  unfold u_escape, hex4.
  repeat (constructor;
          [first [apply hex_digit_printable, N.mod_lt; discriminate
                 |unfold printable; lia]|]).
  constructor.
Qed.

Lemma escape_char_printable c : Forall printable (escape_char c).
Proof.
  unfold escape_char.
  repeat match goal with
         | |- context [if N.eqb ?a ?b then _ else _] =>
             destruct (N.eqb_spec a b)
         end;
    try (repeat (constructor; [unfold printable; lia|]); constructor).
  destruct (N.leb_spec 32 c); destruct (N.leb_spec c 126); cbn [andb];
    try (constructor; [split; assumption|constructor]).
  all: destruct (c <? 0x10000); [apply u_escape_printable|];
    apply Forall_app; split; apply u_escape_printable.
Qed.

Lemma encode_printable s : Forall printable (encode_basestring_ascii s).
Proof.
  unfold encode_basestring_ascii. constructor; [unfold printable; lia|].
  apply Forall_app. split; [|constructor; [unfold printable; lia|constructor]].
  induction s as [|c s IH]; simpl; [constructor|].
  apply Forall_app. split; [apply escape_char_printable|exact IH].
Qed.

Lemma int_repr_printable z : Forall printable (int_repr z).
Proof.
  assert (H : forall u, Forall printable (uint_chars u)).
  { induction u; simpl; constructor;
      solve [unfold printable; lia|assumption]. }
  unfold int_repr. destruct (Z.to_int z); simpl; [apply H|].
  constructor; [unfold printable; lia|apply H].
Qed.

Lemma join_printable (sep : pystr) (parts : list pystr) :
  Forall printable sep ->
  Forall (Forall printable) parts ->
  Forall printable (join sep parts).
Proof.
  intros Hsep H. induction H as [|p parts Hp Hparts IH]; [constructor|].
  destruct parts as [|q parts]; [exact Hp|].
  change (join sep (p :: q :: parts)) with (p ++ sep ++ join sep (q :: parts)).
  repeat (apply Forall_app; split); assumption.
Qed.

Lemma json_dumps_printable v : Forall printable (json_dumps v).
Proof.
  assert (Hsep : Forall printable (str ", "))
    by (apply printable_literal; reflexivity).
  induction v as [|b|z|s|l IH|d IH] using pyval_nested_ind.
  - apply printable_literal. reflexivity.
  - destruct b; apply printable_literal; reflexivity.
  - apply int_repr_printable.
  - apply encode_printable.
  - cbn [json_dumps]. constructor; [unfold printable; lia|].
    apply Forall_app. split; [|constructor; [unfold printable; lia|constructor]].
    apply join_printable; [exact Hsep|]. apply Forall_map. exact IH.
  - cbn [json_dumps]. constructor; [unfold printable; lia|].
    apply Forall_app. split; [|constructor; [unfold printable; lia|constructor]].
    apply join_printable; [exact Hsep|]. apply Forall_map.
    eapply Forall_impl; [exact IH|]. intros [k x] Hx.
    repeat (apply Forall_app; split);
      [apply encode_printable|apply printable_literal; reflexivity|exact Hx].
Qed.

(** ** What a caller reads *)

Lemma json_int_numeral (minus ds : pystr) :
  minus = [] \/ minus = [45] -> json_int ds -> json_numeral (minus ++ ds).
Proof.
  intros Hm Hd.
  replace (minus ++ ds) with (minus ++ ds ++ [] ++ [])
    by (rewrite !app_nil_r; reflexivity).
  apply json_numeral_intro; [exact Hm|exact Hd|constructor|constructor].
Qed.

Scheme json_value_mut := Minimality for json_value Sort Prop
  with json_element_mut := Minimality for json_element Sort Prop
  with json_elements_mut := Minimality for json_elements Sort Prop
  with json_members_mut := Minimality for json_members Sort Prop
  with json_member_mut := Minimality for json_member Sort Prop.

(** A text that denotes a value is a text of the grammar. *)
Lemma json_value_text v t : json_value v t -> json_text t.
Proof.
  revert v t.
  apply (json_value_mut
           (fun _ t => json_text t) (fun _ t => json_text_element t)
           (fun _ t => json_text_elements t) (fun _ t => json_text_members t)
           (fun _ _ t => json_text_member t));
    intros; try (econstructor; eassumption).
  - apply json_text_number, (json_int_numeral []); [left; reflexivity|assumption].
  - apply json_text_number, (json_int_numeral [45]); [right; reflexivity|assumption].
Qed.

Lemma json_value_document v t : json_value v t -> valid_json t.
Proof.
  intros H. unfold valid_json.
  rewrite <- (app_nil_r t). change (json_text_element ([] ++ t ++ [])).
  apply json_text_padded; [reflexivity|exact (json_value_text v t H)|reflexivity].
Qed.

Lemma json_text_nonempty t : json_text t -> t <> [].
Proof.
  destruct 1 as [| | |t Hn| | | | |]; try discriminate.
  destruct Hn as [minus i f e _ Hi _ _].
  intros E. apply app_eq_nil in E as [_ E]. apply app_eq_nil in E as [E _].
  destruct Hi; discriminate E.
Qed.

(** Nothing at all is not a JSON document. *)
Lemma empty_not_json : ~ valid_json [].
Proof.
  unfold valid_json. intros H. remember [] as t eqn:Et.
  destruct H as [w1 t w2 Hw1 Ht Hw2].
  apply app_eq_nil in Et as [_ Et]. apply app_eq_nil in Et as [Et _].
  exact (json_text_nonempty _ Ht Et).
Qed.

(** Once both arguments are there and the client has answered, the
    outcome is decided by the mapping: one printed line, or the
    exception and nothing printed. *)
Lemma run_listed {W : Type}
    (set_api_key : pystr -> W -> result unit * W)
    (get_dataset_files : pystr -> W -> result (list record) * W)
    (path api_key data_id : pystr) (more : list pystr) (w w1 w2 : W)
    (files : list record) :
  set_api_key api_key w = (inr tt, w1) ->
  get_dataset_files data_id w1 = (inr files, w2) ->
  run set_api_key get_dataset_files (path :: api_key :: data_id :: more) w =
  match (d <- summary files ;; dumps d)%result with
  | inr text => {| out_stdout := text ++ [LF]; uncaught := None;
                   exit_status := 0 |}
  | inl e => {| out_stdout := []; uncaught := Some e; exit_status := 1 |}
  end.
Proof.
  intros Hauth Hlist. unfold run, script, bind, eval, call, print.
  cbn [index nth_error world stdout]. rewrite Hauth.
  cbn [world stdout]. rewrite Hlist. cbn [world stdout].
  destruct (summary files) as [e|d]; [reflexivity|].
  cbn [result_bind]. destruct (dumps d); reflexivity.
Qed.

(** ** Well-formed listings *)

Lemma has_field_value (f : record) key ty :
  has_field f key ty = true -> exists v, field_is key f v /\ ty v = true.
Proof.
  unfold has_field, field_is. destruct (f !! str key) as [v|]; [eauto|discriminate].
Qed.

Lemma well_formed_fields (f : record) :
  well_formed f = true ->
  exists link name ext pk size,
    field_is "link" f (PStr link) /\ unicode_str link = true
    /\ field_is "file_name" f (PStr name) /\ unicode_str name = true
    /\ field_is "file_extension" f ext /\ unicode ext = true
    /\ field_is "partition_key" f pk /\ unicode pk = true
    /\ field_is "file_size_bytes" f (PInt size).
Proof.
  unfold well_formed. intros H.
  apply andb_prop in H as [H Hsize]. apply andb_prop in H as [H Hpk].
  apply andb_prop in H as [H Hext]. apply andb_prop in H as [Hlink Hname].
  apply has_field_value in Hlink as (vl & Fl & Tl).
  apply has_field_value in Hname as (vn & Fn & Tn).
  apply has_field_value in Hext as (ve & Fe & Te).
  apply has_field_value in Hpk as (vp & Fp & Tp).
  apply has_field_value in Hsize as (vs & Fs & Ts).
  destruct vl as [| | |link| |]; try discriminate Tl.
  destruct vn as [| | |name| |]; try discriminate Tn.
  destruct ve as [| | |ext| |]; try discriminate Te.
  destruct vs as [| |size| | |]; try discriminate Ts.
  exists link, name, (PStr ext), vp, size.
  repeat split; try assumption.
  destruct vp; try discriminate Tp; [reflexivity|].
  simpl in Tp. rewrite orb_false_r in Tp. exact Tp.
Qed.

Lemma well_formed_links (files : list record) :
  Forall (fun f => well_formed f = true) files ->
  exists urls, Forall2 (field_is "link") files urls
               /\ forallb unicode urls = true.
Proof.
  induction 1 as [|f files Hf _ (urls & Hu & Hv)]; [exists []; split; [constructor|reflexivity]|].
  apply well_formed_fields in Hf as (link & ? & ? & ? & ? & Hl & Hlu & _).
  exists (PStr link :: urls). split; [constructor; assumption|].
  simpl. rewrite Hlu. exact Hv.
Qed.

Lemma well_formed_sizes (files : list record) :
  Forall (fun f => well_formed f = true) files ->
  exists sizes,
    Forall2 (fun f z => field_is "file_size_bytes" f (PInt z)) files sizes.
Proof.
  induction 1 as [|f files Hf _ (sizes & Hs)]; [exists []; constructor|].
  apply well_formed_fields in Hf as (? & ? & ? & ? & size & H).
  exists (size :: sizes). constructor; [apply H|exact Hs].
Qed.

Lemma unicode_parent_folder s :
  unicode_str s = true -> unicode_str (parent_folder s) = true.
Proof.
  unfold unicode_str. rewrite !List.forallb_forall. intros H c Hc.
  apply H, list_elem_of_In. apply list_elem_of_In in Hc.
  unfold parent_folder, re_sub in Hc. eauto using sub_scan_elem.
Qed.

Lemma sizes_are_sizes (files : list record) (sizes : list Z) :
  Forall2 (fun f z => field_is "file_size_bytes" f (PInt z)) files sizes ->
  Forall2 size_is files sizes.
Proof.
  intros H. eapply Forall2_impl; [exact H|].
  intros f z Hz. exists (PInt z). split; [exact Hz|reflexivity].
Qed.

Lemma size_is_size_of (f : record) (z : Z) : size_is f z -> size_of f = z.
Proof.
  intros (v & Hv & Hz). unfold size_of. unfold field_is in Hv.
  rewrite Hv, Hz. reflexivity.
Qed.

Lemma sizes_are_size_of (files : list record) (sizes : list Z) :
  Forall2 size_is files sizes -> sizes = List.map size_of files.
Proof.
  induction 1 as [|f z files sizes Hz _ IH]; [reflexivity|].
  simpl. rewrite (size_is_size_of f z Hz), IH. reflexivity.
Qed.

(** In a well-formed record the link, the file_extension and the
    partition_key hold no integer. *)
Lemma well_formed_no_int (f : record) (key : string) (v : pyval) :
  well_formed f = true ->
  key ∈ ["link"; "file_extension"; "partition_key"]%string ->
  field_is key f v -> serializable v = true.
Proof.
  unfold well_formed, has_field, field_is. intros H Hkey Hv.
  apply andb_prop in H as [H _]. apply andb_prop in H as [H Hpk].
  apply andb_prop in H as [H Hext]. apply andb_prop in H as [Hlink _].
  apply elem_of_cons in Hkey as [->|Hkey]; [rewrite Hv in Hlink|].
  { destruct v; first [discriminate Hlink|reflexivity]. }
  apply elem_of_cons in Hkey as [->|Hkey]; [rewrite Hv in Hext|].
  { destruct v; first [discriminate Hext|reflexivity]. }
  apply elem_of_cons in Hkey as [->|Hkey]; [rewrite Hv in Hpk|inversion Hkey].
  destruct v; first [discriminate Hpk|reflexivity].
Qed.

Lemma well_formed_links_no_int (files : list record) (urls : list pyval) :
  Forall (fun f => well_formed f = true) files ->
  Forall2 (field_is "link") files urls ->
  forallb serializable urls = true.
Proof.
  intros Hwf Hu. induction Hu as [|f u files urls Hfu _ IH]; [reflexivity|].
  apply Forall_cons in Hwf as [Hf Hwf]. cbn [forallb].
  rewrite (well_formed_no_int f "link" u Hf) by first [assumption|repeat constructor].
  exact (IH Hwf).
Qed.

(** In the mapping of a well-formed listing the total is the only
    integer. *)
Lemma mapping_serializable (files : list record) (f0 : record)
    (rest : list record) (urls : list pyval) (folder : pystr)
    (ext pk : pyval) (total : Z) :
  files = f0 :: rest -> Forall (fun f => well_formed f = true) files ->
  Forall2 (field_is "link") files urls ->
  field_is "file_extension" f0 ext -> field_is "partition_key" f0 pk ->
  serializable (mapping urls (PStr folder) ext pk total) = int_fits total.
Proof.
  intros Hf Hwf Hu He Hp.
  assert (Hf0 : well_formed f0 = true).
  { rewrite Hf in Hwf. apply Forall_cons in Hwf as [H _]. exact H. }
  unfold mapping. cbn [serializable forallb snd].
  rewrite (well_formed_links_no_int files urls Hwf Hu).
  rewrite (well_formed_no_int f0 "file_extension" ext Hf0)
    by first [assumption|repeat constructor].
  rewrite (well_formed_no_int f0 "partition_key" pk Hf0)
    by first [assumption|repeat constructor].
  rewrite andb_true_r. reflexivity.
Qed.

(** A non-empty listing of well-formed records always yields the
    mapping, and all its strings are Unicode strings. *)
Lemma summary_well_formed (files : list record) :
  files <> [] -> Forall (fun f => well_formed f = true) files ->
  exists f0 rest urls name ext pk sizes,
    files = f0 :: rest
    /\ Forall2 (field_is "link") files urls
    /\ field_is "file_name" f0 (PStr name)
    /\ field_is "file_extension" f0 ext
    /\ field_is "partition_key" f0 pk
    /\ Forall2 (fun f z => field_is "file_size_bytes" f (PInt z)) files sizes
    /\ summary files
       = inr (mapping urls (PStr (parent_folder name)) ext pk (Zsum sizes))
    /\ unicode (mapping urls (PStr (parent_folder name)) ext pk (Zsum sizes))
       = true.
Proof.
  intros Hne Hwf. destruct files as [|f0 rest]; [contradiction|].
  destruct (well_formed_links _ Hwf) as (urls & Hurls & Hu).
  destruct (well_formed_sizes _ Hwf) as (sizes & Hsizes).
  pose proof Hwf as Hwf'. apply Forall_cons in Hwf' as [Hf0 _].
  apply well_formed_fields in Hf0
    as (link & name & ext & pk & size
        & _ & _ & Hn & Hnu & He & Heu & Hp & Hpu & _).
  exists f0, rest, urls, name, ext, pk, sizes.
  repeat (split; [eassumption || reflexivity|]). split.
  - apply summary_value.
    exists f0, rest, urls, name, ext, pk, sizes.
    repeat split; try eassumption. apply sizes_are_sizes, Hsizes.
  - unfold mapping. cbn [unicode forallb].
    rewrite Hu, Heu, Hpu, (unicode_parent_folder _ Hnu). reflexivity.
Qed.

(** The text of the mapping, entry by entry. *)
Lemma summary_text urls folder ext pk total :
  json_dumps (mapping urls folder ext pk total)
  = 123 :: quoted "urls" ++ str ": " ++ json_dumps (PList urls)
      ++ str ", " ++ quoted "parent_folder" ++ str ": " ++ json_dumps folder
      ++ str ", " ++ quoted "file_extension" ++ str ": " ++ json_dumps ext
      ++ str ", " ++ quoted "partition_key" ++ str ": " ++ json_dumps pk
      ++ str ", " ++ quoted "file_size_bytes" ++ str ": " ++ int_repr total
      ++ [125].
Proof.
  unfold mapping. cbn [json_dumps List.map join].
  change (encode_basestring_ascii (str "urls")) with (quoted "urls").
  change (encode_basestring_ascii (str "parent_folder")) with (quoted "parent_folder").
  change (encode_basestring_ascii (str "file_extension")) with (quoted "file_extension").
  change (encode_basestring_ascii (str "partition_key")) with (quoted "partition_key").
  change (encode_basestring_ascii (str "file_size_bytes")) with (quoted "file_size_bytes").
  rewrite <- !app_assoc. reflexivity.
Qed.

(** ** The folder name *)

(** C1 (as stated, refuted): on a name that ends in a line feed the code
    keeps the line feed, while removing "everything to the end of the
    string" from the underscore on would not. *)
Lemma parent_folder_keeps_final_line_feed :
  parent_folder (str "part_1" ++ [LF]) = str "part" ++ [LF]
  /\ spec_parent_folder (str "part_1" ++ [LF]) = str "part"
  /\ parent_folder (str "part_1" ++ [LF]) <> spec_parent_folder (str "part_1" ++ [LF]).
Proof. repeat split. vm_compute. discriminate. Qed.

(** C1 (amended): the "parent_folder" value of the mapping is a function
    of the first record's file_name alone; on every file name without a
    line feed it is the result of the two cleanups of the specification
    applied in order (cut from the first hyphen or underscore that a digit
    follows, then drop a trailing "-data"); such a name matching neither
    pattern is returned unchanged; and the three names of the
    specification map to "airline-employment", "sales" and "report.csv". *)
Theorem parent_folder_two_cleanups :
  (forall (files : list record) (d : pyval),
     summary files = inr d ->
     exists f0 rest name,
       files = f0 :: rest
       /\ field_is "file_name" f0 (PStr name)
       /\ dict_get d (str "parent_folder") = Some (PStr (parent_folder name)))
  /\ (forall s, LF ∉ s ->
     parent_folder s = spec_strip_data (spec_strip_shard s)
     /\ ((forall i c d, s !! i = Some c -> s !! S i = Some d ->
            ((c =? 45) || (c =? 95)) && is_decimal d = false) ->
         ~ str "-data" `suffix_of` s ->
         parent_folder s = s))
  /\ parent_folder (str "airline-employment-data_0_0_0.snappy.parquet")
     = str "airline-employment"
  /\ parent_folder (str "sales-data_1.csv") = str "sales"
  /\ parent_folder (str "report.csv") = str "report.csv".
Proof.
  split; [|split; [|repeat split]].
  { intros files d Hd.
    apply summary_value in Hd
      as (f0 & rest & urls & name & ext & pk & sizes
          & -> & _ & Hn & _ & _ & _ & ->).
    exists f0, rest, name. repeat split. exact Hn. }
  intros s Hs. split; [exact (parent_folder_line s Hs)|].
  intros Hshard Hdata. rewrite (parent_folder_line s Hs).
  unfold spec_parent_folder. rewrite (spec_strip_shard_id s Hshard).
  unfold spec_strip_data. rewrite decide_False by exact Hdata. reflexivity.
Qed.

Lemma parent_folder_two_cleanups_witness :
  (LF ∉ str "sales-data_1.csv")
  /\ parent_folder (str "sales-data_1.csv")
     = spec_strip_data (spec_strip_shard (str "sales-data_1.csv"))
  /\ exists d f0 rest name,
       summary sample_listing = inr d
       /\ sample_listing = f0 :: rest
       /\ field_is "file_name" f0 (PStr name)
       /\ dict_get d (str "parent_folder") = Some (PStr (parent_folder name)).
Proof.
  assert (H : LF ∉ str "sales-data_1.csv") by compute_done.
  split; [exact H|]. split.
  - exact (proj1 (proj1 (proj2 parent_folder_two_cleanups)
                    (str "sales-data_1.csv") H)).
  - assert (E : exists d, summary sample_listing = inr d)
      by (eexists; vm_compute; reflexivity).
    destruct E as [d E].
    destruct (proj1 parent_folder_two_cleanups sample_listing d E)
      as (f0 & rest & name & Hf & Hn & Hd).
    exists d, f0, rest, name. repeat split; assumption.
Defined.

(** C9 (as stated, refuted): for "sales-data_1.csv" followed by a line
    feed the folder name is "sales" followed by a line feed, which is not
    a prefix of the file name. *)
Lemma parent_folder_not_always_prefix :
  ~ parent_folder (str "sales-data_1.csv" ++ [LF])
      `prefix_of` (str "sales-data_1.csv" ++ [LF]).
Proof. intros [k Hk]. vm_compute in Hk. discriminate. Qed.

(** C9 (amended): the cleanup only deletes characters, so the folder
    name is a subsequence of the file name; it is a prefix of the file
    name, possibly followed by one line feed; and for every file name
    that contains no line feed it is a prefix of the file name. *)
Theorem folder_is_prefix_of_name s :
  parent_folder s `sublist_of` s
  /\ (exists q, q `prefix_of` s
                /\ (parent_folder s = q \/ parent_folder s = q ++ [LF]))
  /\ (LF ∉ s -> parent_folder s `prefix_of` s).
Proof.
  split; [apply parent_folder_sublist|]. split; [apply parent_folder_shape|].
  intros Hs. rewrite (parent_folder_line s Hs). apply spec_parent_folder_prefix.
Qed.

Lemma folder_is_prefix_of_name_witness :
  (LF ∉ str "airline-employment-data_0_0_0.snappy.parquet")
  /\ parent_folder (str "airline-employment-data_0_0_0.snappy.parquet")
       `prefix_of` str "airline-employment-data_0_0_0.snappy.parquet".
Proof.
  assert (H : LF ∉ str "airline-employment-data_0_0_0.snappy.parquet")
    by compute_done.
  split; [exact H|].
  exact (proj2 (proj2 (folder_is_prefix_of_name _)) H).
Defined.

(** ** The script, once the client has listed the files *)

Section Listed.

Context {W : Type}.
Variable set_api_key : pystr -> W -> result unit * W.
Variable get_dataset_files : pystr -> W -> result (list record) * W.
Variables (path api_key data_id : pystr) (more : list pystr).
Variables (w w1 w2 : W) (files : list record).

Hypothesis authenticated : set_api_key api_key w = (inr tt, w1).
Hypothesis listed : get_dataset_files data_id w1 = (inr files, w2).

Local Abbreviation the_run :=
  (run set_api_key get_dataset_files (path :: api_key :: data_id :: more) w).

Lemma run_well_formed :
  files <> [] -> Forall (fun f => well_formed f = true) files ->
  int_fits (total_size files) = true ->
  exists f0 rest urls name ext pk sizes,
    files = f0 :: rest
    /\ Forall2 (field_is "link") files urls
    /\ field_is "file_name" f0 (PStr name)
    /\ field_is "file_extension" f0 ext
    /\ field_is "partition_key" f0 pk
    /\ Forall2 (fun f z => field_is "file_size_bytes" f (PInt z)) files sizes
    /\ summary files
       = inr (mapping urls (PStr (parent_folder name)) ext pk (Zsum sizes))
    /\ the_run
       = {| out_stdout :=
              json_dumps
                (mapping urls (PStr (parent_folder name)) ext pk (Zsum sizes))
                ++ [LF];
            uncaught := None; exit_status := 0 |}
    /\ json_value
         (mapping urls (PStr (parent_folder name)) ext pk (Zsum sizes))
         (json_dumps
            (mapping urls (PStr (parent_folder name)) ext pk (Zsum sizes))).
Proof.
  intros Hne Hwf Hfit.
  destruct (summary_well_formed files Hne Hwf)
    as (f0 & rest & urls & name & ext & pk & sizes
        & Hf & Hu & Hn & He & Hp & Hs & Hd & Huni).
  exists f0, rest, urls, name, ext, pk, sizes.
  repeat (split; [assumption|]).
  split; [|apply json_dumps_denotes, Huni].
  rewrite (run_listed _ _ _ _ _ _ _ _ _ _ authenticated listed), Hd.
  cbn [result_bind]. unfold dumps.
  rewrite (mapping_serializable files f0 rest urls _ ext pk _ Hf Hwf Hu He Hp).
  rewrite (sizes_are_size_of files sizes (sizes_are_sizes _ _ Hs)).
  fold (total_size files). rewrite Hfit. reflexivity.
Qed.

(** C2: for a listing of N >= 1 file-metadata records whose total has no
    more digits than the interpreter converts, the process prints the
    JSON text of a mapping whose "urls" value is a list of exactly N
    entries, the i-th being the link field of the i-th record. *)
Theorem urls_follow_listing :
  files <> [] -> Forall (fun f => well_formed f = true) files ->
  int_fits (total_size files) = true ->
  exists d urls,
    summary files = inr d
    /\ out_stdout the_run = json_dumps d ++ [LF]
    /\ json_value d (json_dumps d)
    /\ dict_get d (str "urls") = Some (PList urls)
    /\ length urls = length files
    /\ forall (i : nat) (f : record),
         files !! i = Some f -> urls !! i = f !! str "link".
Proof.
  intros Hne Hwf Hfit.
  destruct (run_well_formed Hne Hwf Hfit)
    as (f0 & rest & urls & name & ext & pk & sizes
        & _ & Hu & _ & _ & _ & _ & Hd & Hrun & Hjson).
  eexists. exists urls. rewrite Hrun.
  split; [exact Hd|].
  split; [reflexivity|]. split; [exact Hjson|]. split; [reflexivity|].
  split; [symmetry; exact (Forall2_length _ _ _ Hu)|].
  intros i f Hi.
  destruct (Forall2_lookup_l _ _ _ _ _ Hu Hi) as (u & Hui & Hfu).
  rewrite Hui. symmetry. exact Hfu.
Qed.

(** C3: for a listing of N >= 1 records whose total has no more digits
    than the interpreter converts, the "file_size_bytes" value of the
    printed mapping is the exact (unbounded) integer sum of the
    file_size_bytes fields of all N records: the printed line ends with
    the key, the digits of the total and the closing brace, and these
    digits, read as a decimal number, spell the sum. *)
Theorem file_size_bytes_is_sum :
  files <> [] -> Forall (fun f => well_formed f = true) files ->
  int_fits (total_size files) = true ->
  exists d sizes,
    summary files = inr d
    /\ out_stdout the_run = json_dumps d ++ [LF]
    /\ json_value d (json_dumps d)
    /\ Forall2 (fun f z => field_is "file_size_bytes" f (PInt z)) files sizes
    /\ dict_get d (str "file_size_bytes") = Some (PInt (Zsum sizes))
    /\ (exists pre,
          json_dumps d
          = pre ++ quoted "file_size_bytes" ++ str ": "
              ++ int_repr (Zsum sizes) ++ [125])
    /\ json_value (PInt (Zsum sizes)) (int_repr (Zsum sizes)).
Proof.
  intros Hne Hwf Hfit.
  destruct (run_well_formed Hne Hwf Hfit)
    as (f0 & rest & urls & name & ext & pk & sizes
        & _ & _ & _ & _ & _ & Hs & Hd & Hrun & Hjson).
  eexists. exists sizes. rewrite Hrun.
  split; [exact Hd|].
  split; [reflexivity|]. split; [exact Hjson|]. split; [exact Hs|].
  split; [reflexivity|]. split; [|apply json_dumps_int].
  rewrite summary_text.
  exists (123 :: quoted "urls" ++ str ": " ++ json_dumps (PList urls)
            ++ str ", " ++ quoted "parent_folder" ++ str ": "
            ++ json_dumps (PStr (parent_folder name))
            ++ str ", " ++ quoted "file_extension" ++ str ": " ++ json_dumps ext
            ++ str ", " ++ quoted "partition_key" ++ str ": " ++ json_dumps pk
            ++ str ", ").
  rewrite <- app_comm_cons, <- !app_assoc. reflexivity.
Qed.

(** C4: for a listing with a first record, whose total has no more
    digits than the interpreter converts, the "partition_key" and
    "file_extension" values of the printed mapping are the first
    record's fields unchanged, and a null partition_key is printed as the
    JSON literal null. *)
Theorem first_record_fields_verbatim (f0 : record) (rest : list record) :
  files = f0 :: rest -> Forall (fun f => well_formed f = true) files ->
  int_fits (total_size files) = true ->
  exists d,
    summary files = inr d
    /\ out_stdout the_run = json_dumps d ++ [LF]
    /\ json_value d (json_dumps d)
    /\ dict_get d (str "partition_key") = f0 !! str "partition_key"
    /\ dict_get d (str "file_extension") = f0 !! str "file_extension"
    /\ (f0 !! str "partition_key" = Some PNone ->
        exists pre post,
          json_dumps d = pre ++ quoted "partition_key" ++ str ": null" ++ post).
Proof.
  intros Hfiles Hwf Hfit.
  assert (Hne : files <> []) by (rewrite Hfiles; discriminate).
  destruct (run_well_formed Hne Hwf Hfit)
    as (g & rest' & urls & name & ext & pk & sizes
        & Hg & _ & _ & He & Hp & _ & Hd & Hrun & Hjson).
  rewrite Hfiles in Hg. injection Hg as <- <-.
  unfold field_is in He, Hp.
  eexists. rewrite Hrun.
  split; [exact Hd|].
  split; [reflexivity|]. split; [exact Hjson|].
  split; [symmetry; exact Hp|]. split; [symmetry; exact He|].
  intros Hnull. assert (pk = PNone) as -> by congruence.
  rewrite summary_text.
  exists (123 :: quoted "urls" ++ str ": " ++ json_dumps (PList urls)
            ++ str ", " ++ quoted "parent_folder" ++ str ": "
            ++ json_dumps (PStr (parent_folder name))
            ++ str ", " ++ quoted "file_extension" ++ str ": " ++ json_dumps ext
            ++ str ", "),
         (str ", " ++ quoted "file_size_bytes" ++ str ": "
            ++ int_repr (Zsum sizes) ++ [125]).
  rewrite <- app_comm_cons, <- !app_assoc. reflexivity.
Qed.

(** C5: with both arguments supplied and a non-empty listing of
    well-formed records whose total has no more digits than the
    interpreter converts (so that json.dumps returns), the process exits
    normally having written exactly one line: the line is printable ASCII
    up to its final line feed and is a JSON object with the five members
    "urls", "parent_folder", "file_extension", "partition_key",
    "file_size_bytes", written in this order; nothing else is written. *)
Theorem stdout_is_one_json_line :
  files <> [] -> Forall (fun f => well_formed f = true) files ->
  int_fits (total_size files) = true ->
  exists urls folder ext pk total t,
    summary files = inr (mapping urls (PStr folder) ext pk total)
    /\ the_run
       = {| out_stdout := t ++ [LF]; uncaught := None; exit_status := 0 |}
    /\ Forall printable t
    /\ (LF ∉ t)
    /\ valid_json t
    /\ json_value (PDict [ (str "urls", PList urls);
                           (str "parent_folder", PStr folder);
                           (str "file_extension", ext);
                           (str "partition_key", pk);
                           (str "file_size_bytes", PInt total) ]) t
    /\ t = 123 :: quoted "urls" ++ str ": " ++ json_dumps (PList urls)
             ++ str ", " ++ quoted "parent_folder" ++ str ": "
             ++ json_dumps (PStr folder)
             ++ str ", " ++ quoted "file_extension" ++ str ": " ++ json_dumps ext
             ++ str ", " ++ quoted "partition_key" ++ str ": " ++ json_dumps pk
             ++ str ", " ++ quoted "file_size_bytes" ++ str ": " ++ int_repr total
             ++ [125].
Proof.
  intros Hne Hwf Hfit.
  destruct (run_well_formed Hne Hwf Hfit)
    as (f0 & rest & urls & name & ext & pk & sizes
        & _ & _ & _ & _ & _ & _ & Hd & Hrun & Hjson).
  exists urls, (parent_folder name), ext, pk, (Zsum sizes). eexists.
  split; [exact Hd|].
  split; [exact Hrun|]. split; [apply json_dumps_printable|].
  split; [apply printable_line, json_dumps_printable|].
  split; [|split; [exact Hjson|apply summary_text]].
  exact (json_value_document _ _ Hjson).
Qed.

(** C6: when the listing is empty, the process fails with the uncaught
    IndexError of the access to the first record and has written nothing;
    the aggregation on its own would have given 0, so the failure is not
    the aggregation's and the empty dataset is no zero-sum success. *)
Theorem empty_listing_fails :
  files = [] ->
  the_run = {| out_stdout := []; uncaught := Some IndexError; exit_status := 1 |}
  /\ summary files = inl IndexError
  /\ sum_sizes 0 files = inr 0%Z.
Proof.
  intros ->.
  rewrite (run_listed _ _ _ _ _ _ _ _ _ _ authenticated listed).
  repeat split.
Qed.

(** C8: if a record lacks a field the script reads (link or
    file_size_bytes of any record, file_name, file_extension or
    partition_key of the first), the process fails with an uncaught
    exception and has written nothing; for records of the data model,
    whose present fields hold the types the script relies on (file_name
    of the first record a str, every file_size_bytes an int), the
    exception is the KeyError of one of these five keys. *)
Theorem missing_field_fails :
  field_missing files ->
  exists e,
    the_run = {| out_stdout := []; uncaught := Some e; exit_status := 1 |}
    /\ (typed_where_present files ->
        exists key, e = KeyError (str key)
          /\ key ∈ ["link"; "file_name"; "file_extension"; "partition_key";
                    "file_size_bytes"]%string).
Proof.
  intros Hmiss. destruct (summary_missing files Hmiss) as [e He].
  exists e. split.
  - rewrite (run_listed _ _ _ _ _ _ _ _ _ _ authenticated listed), He.
    reflexivity.
  - intros Hty. apply (summary_error files e); [|exact Hty|exact He].
    apply field_missing_nonempty, Hmiss.
Qed.

End Listed.

(** ** The sample run *)

Lemma sample_well_formed :
  Forall (fun f => well_formed f = true) sample_listing.
Proof. repeat (constructor; [vm_compute; reflexivity|]). constructor. Qed.

Lemma sample_fits : int_fits (total_size sample_listing) = true.
Proof. vm_compute. reflexivity. Qed.

Lemma urls_follow_listing_witness :
  sample_listing <> []
  /\ Forall (fun f => well_formed f = true) sample_listing
  /\ int_fits (total_size sample_listing) = true
  /\ exists d urls,
       summary sample_listing = inr d
       /\ out_stdout (run accept_key (serve sample_listing) sample_argv tt)
          = json_dumps d ++ [LF]
       /\ json_value d (json_dumps d)
       /\ dict_get d (str "urls") = Some (PList urls)
       /\ length urls = length sample_listing
       /\ forall (i : nat) (f : record),
            sample_listing !! i = Some f -> urls !! i = f !! str "link".
Proof.
  assert (Hne : sample_listing <> []) by discriminate.
  split; [exact Hne|]. split; [exact sample_well_formed|].
  split; [exact sample_fits|].
  exact (@urls_follow_listing unit accept_key (serve sample_listing)
           (str "get_dewey_urls.py") (str "secret") (str "sales") [] tt tt tt
           sample_listing eq_refl eq_refl Hne sample_well_formed sample_fits).
Defined.

Lemma file_size_bytes_is_sum_witness :
  sample_listing <> []
  /\ Forall (fun f => well_formed f = true) sample_listing
  /\ int_fits (total_size sample_listing) = true
  /\ exists d sizes,
       summary sample_listing = inr d
       /\ out_stdout (run accept_key (serve sample_listing) sample_argv tt)
          = json_dumps d ++ [LF]
       /\ json_value d (json_dumps d)
       /\ Forall2 (fun f z => field_is "file_size_bytes" f (PInt z))
            sample_listing sizes
       /\ dict_get d (str "file_size_bytes") = Some (PInt (Zsum sizes))
       /\ (exists pre,
             json_dumps d
             = pre ++ quoted "file_size_bytes" ++ str ": "
                 ++ int_repr (Zsum sizes) ++ [125])
       /\ json_value (PInt (Zsum sizes)) (int_repr (Zsum sizes)).
Proof.
  assert (Hne : sample_listing <> []) by discriminate.
  split; [exact Hne|]. split; [exact sample_well_formed|].
  split; [exact sample_fits|].
  exact (@file_size_bytes_is_sum unit accept_key (serve sample_listing)
           (str "get_dewey_urls.py") (str "secret") (str "sales") [] tt tt tt
           sample_listing eq_refl eq_refl Hne sample_well_formed sample_fits).
Defined.

Lemma first_record_fields_verbatim_witness :
  exists f0 rest,
    sample_listing = f0 :: rest
    /\ Forall (fun f => well_formed f = true) sample_listing
    /\ int_fits (total_size sample_listing) = true
    /\ exists d,
         summary sample_listing = inr d
         /\ out_stdout (run accept_key (serve sample_listing) sample_argv tt)
            = json_dumps d ++ [LF]
         /\ json_value d (json_dumps d)
         /\ dict_get d (str "partition_key") = f0 !! str "partition_key"
         /\ dict_get d (str "file_extension") = f0 !! str "file_extension"
         /\ (f0 !! str "partition_key" = Some PNone ->
             exists pre post,
               json_dumps d
               = pre ++ quoted "partition_key" ++ str ": null" ++ post).
Proof.
  eexists _, _. split; [reflexivity|]. split; [exact sample_well_formed|].
  split; [exact sample_fits|].
  exact (@first_record_fields_verbatim unit accept_key (serve sample_listing)
           (str "get_dewey_urls.py") (str "secret") (str "sales") [] tt tt tt
           sample_listing eq_refl eq_refl _ _ eq_refl sample_well_formed
           sample_fits).
Defined.

Lemma stdout_is_one_json_line_witness :
  sample_listing <> []
  /\ Forall (fun f => well_formed f = true) sample_listing
  /\ int_fits (total_size sample_listing) = true
  /\ exists t,
       run accept_key (serve sample_listing) sample_argv tt
       = {| out_stdout := t ++ [LF]; uncaught := None; exit_status := 0 |}
       /\ (LF ∉ t) /\ valid_json t.
Proof.
  assert (Hne : sample_listing <> []) by discriminate.
  split; [exact Hne|]. split; [exact sample_well_formed|].
  split; [exact sample_fits|].
  destruct (@stdout_is_one_json_line unit accept_key (serve sample_listing)
              (str "get_dewey_urls.py") (str "secret") (str "sales") [] tt tt tt
              sample_listing eq_refl eq_refl Hne sample_well_formed sample_fits)
    as (urls & folder & ext & pk & total & t & _ & Hrun & _ & Hline & Hjson & _).
  exists t. repeat split; assumption.
Defined.

Lemma empty_listing_fails_witness :
  run accept_key (serve []) sample_argv tt
  = {| out_stdout := []; uncaught := Some IndexError; exit_status := 1 |}
  /\ summary [] = inl IndexError
  /\ sum_sizes 0 [] = inr 0%Z.
Proof.
  exact (@empty_listing_fails unit accept_key (serve [])
           (str "get_dewey_urls.py") (str "secret") (str "sales") [] tt tt tt
           [] eq_refl eq_refl eq_refl).
Defined.

(** A record that lacks only its link, in an otherwise sound listing. *)
Lemma missing_field_fails_witness :
  field_missing (linkless_record :: sample_listing)
  /\ typed_where_present (linkless_record :: sample_listing)
  /\ exists key,
       run accept_key (serve (linkless_record :: sample_listing)) sample_argv tt
       = {| out_stdout := []; uncaught := Some (KeyError (str key));
            exit_status := 1 |}.
Proof.
  assert (Hmiss : field_missing (linkless_record :: sample_listing)).
  { left. exists linkless_record. split; [left|]. left. vm_compute. reflexivity. }
  assert (Hty : typed_where_present (linkless_record :: sample_listing)).
  { split.
    - intros f0 rest v [= <- <-] Hv. vm_compute in Hv. injection Hv as <-. eauto.
    - intros f v Hf Hv.
      repeat (apply elem_of_cons in Hf as [->|Hf];
              [vm_compute in Hv; injection Hv as <-; eexists; reflexivity|]).
      inversion Hf. }
  split; [exact Hmiss|]. split; [exact Hty|].
  destruct (@missing_field_fails unit accept_key
              (serve (linkless_record :: sample_listing))
              (str "get_dewey_urls.py") (str "secret") (str "sales") [] tt tt tt
              (linkless_record :: sample_listing) eq_refl eq_refl Hmiss)
    as (e & He & Hkey).
  destruct (Hkey Hty) as (key & -> & _).
  exists key. exact He.
Defined.

(** ** Too few arguments *)

(** C7: with fewer than two arguments after the script path, the process
    fails with an uncaught IndexError and exit status 1, having written
    nothing; what is on standard output is not a JSON document. *)
Theorem missing_arguments_fail {W : Type}
    (set_api_key : pystr -> W -> result unit * W)
    (get_dataset_files : pystr -> W -> result (list record) * W)
    (argv : list pystr) (w : W) :
  (length argv < 3)%nat ->
  run set_api_key get_dataset_files argv w
  = {| out_stdout := []; uncaught := Some IndexError; exit_status := 1 |}
  /\ ~ valid_json (out_stdout (run set_api_key get_dataset_files argv w)).
Proof.
  intros Hlen.
  assert (E : run set_api_key get_dataset_files argv w
              = {| out_stdout := []; uncaught := Some IndexError;
                   exit_status := 1 |}).
  { destruct argv as [|path [|key [|id more]]]; try reflexivity.
    simpl in Hlen. lia. }
  split; [exact E|]. rewrite E. exact empty_not_json.
Qed.

Lemma missing_arguments_fail_witness :
  (length [str "get_dewey_urls.py"; str "secret"] < 3)%nat
  /\ run accept_key (serve sample_listing)
       [str "get_dewey_urls.py"; str "secret"] tt
     = {| out_stdout := []; uncaught := Some IndexError; exit_status := 1 |}.
Proof.
  assert (H : (length [str "get_dewey_urls.py"; str "secret"] < 3)%nat)
    by (simpl; lia).
  split; [exact H|].
  exact (proj1 (missing_arguments_fail accept_key (serve sample_listing)
                  [str "get_dewey_urls.py"; str "secret"] tt H)).
Defined.

(** ** What the first record decides *)

(** C10: two listings with the same first record that both yield a
    mapping yield the same "parent_folder", "file_extension" and
    "partition_key" values, however the other records differ. *)
Theorem first_record_decides (f0 : record) (rest1 rest2 : list record)
    (d1 d2 : pyval) :
  summary (f0 :: rest1) = inr d1 ->
  summary (f0 :: rest2) = inr d2 ->
  dict_get d1 (str "parent_folder") = dict_get d2 (str "parent_folder")
  /\ dict_get d1 (str "file_extension") = dict_get d2 (str "file_extension")
  /\ dict_get d1 (str "partition_key") = dict_get d2 (str "partition_key").
Proof.
  intros H1 H2.
  apply summary_value in H1
    as (g1 & r1 & urls1 & name1 & ext1 & pk1 & sizes1
        & [= <- <-] & _ & Hn1 & He1 & Hp1 & _ & ->).
  apply summary_value in H2
    as (g2 & r2 & urls2 & name2 & ext2 & pk2 & sizes2
        & [= <- <-] & _ & Hn2 & He2 & Hp2 & _ & ->).
  unfold field_is in *.
  assert (name1 = name2) as -> by congruence.
  assert (ext1 = ext2) as -> by congruence.
  assert (pk1 = pk2) as -> by congruence.
  repeat split.
Qed.

Lemma first_record_decides_witness :
  exists f0 rest d1 d2,
    summary [f0] = inr d1
    /\ summary (f0 :: rest) = inr d2
    /\ rest <> []
    /\ dict_get d1 (str "parent_folder") = Some (PStr (str "sales"))
    /\ dict_get d1 (str "parent_folder") = dict_get d2 (str "parent_folder")
    /\ dict_get d1 (str "file_extension") = dict_get d2 (str "file_extension")
    /\ dict_get d1 (str "partition_key") = dict_get d2 (str "partition_key").
Proof.
  exists (make_record "https://files.example/sales-data_0.csv"
            "sales-data_0.csv" ".csv" PNone 120).
  exists [make_record "https://files.example/sales-data_1.csv"
            "sales-data_1.csv" ".csv" PNone 80].
  eexists _, _.
  split; [vm_compute; reflexivity|]. split; [vm_compute; reflexivity|].
  split; [discriminate|]. split; [vm_compute; reflexivity|].
  apply (first_record_decides
           (make_record "https://files.example/sales-data_0.csv"
              "sales-data_0.csv" ".csv" PNone 120)
           []
           [make_record "https://files.example/sales-data_1.csv"
              "sales-data_1.csv" ".csv" PNone 80]);
    vm_compute; reflexivity.
Defined.

(** * Further properties of the script *)

(** ** The script around the client calls *)

Lemma script_short {W : Type}
    (set_api_key : pystr -> W -> result unit * W)
    (get_dataset_files : pystr -> W -> result (list record) * W)
    (argv : list pystr) (st : proc W) :
  (length argv < 3)%nat ->
  script set_api_key get_dataset_files argv st = (inl IndexError, st).
Proof.
  intros Hlen. destruct argv as [|path [|key [|id more]]]; try reflexivity.
  simpl in Hlen. lia.
Qed.

Lemma script_rejected {W : Type}
    (set_api_key : pystr -> W -> result unit * W)
    (get_dataset_files : pystr -> W -> result (list record) * W)
    (path api_key data_id : pystr) (more : list pystr) (w w1 : W)
    (out : pystr) (e : exn) :
  set_api_key api_key w = (inl e, w1) ->
  script set_api_key get_dataset_files (path :: api_key :: data_id :: more)
    {| world := w; stdout := out |}
  = (inl e, {| world := w1; stdout := out |}).
Proof.
  intros Hauth. unfold script, bind, eval, call.
  cbn [index nth_error world stdout]. rewrite Hauth. reflexivity.
Qed.

Lemma script_unlisted {W : Type}
    (set_api_key : pystr -> W -> result unit * W)
    (get_dataset_files : pystr -> W -> result (list record) * W)
    (path api_key data_id : pystr) (more : list pystr) (w w1 w2 : W)
    (out : pystr) (u : unit) (e : exn) :
  set_api_key api_key w = (inr u, w1) ->
  get_dataset_files data_id w1 = (inl e, w2) ->
  script set_api_key get_dataset_files (path :: api_key :: data_id :: more)
    {| world := w; stdout := out |}
  = (inl e, {| world := w2; stdout := out |}).
Proof.
  intros Hauth Hlist. unfold script, bind, eval, call.
  cbn [index nth_error world stdout]. rewrite Hauth.
  cbn [world stdout]. rewrite Hlist. reflexivity.
Qed.

Lemma run_of_script {W : Type}
    (set_api_key : pystr -> W -> result unit * W)
    (get_dataset_files : pystr -> W -> result (list record) * W)
    (argv : list pystr) (w w' : W) (e : exn) :
  script set_api_key get_dataset_files argv {| world := w; stdout := [] |}
  = (inl e, {| world := w'; stdout := [] |}) ->
  run set_api_key get_dataset_files argv w
  = {| out_stdout := []; uncaught := Some e; exit_status := 1 |}.
Proof. intros H. unfold run. rewrite H. reflexivity. Qed.

(** X1: no partial output.  Whatever the arguments and whatever the
    client does, the process either exits with status 0 having written
    exactly one line of printable ASCII (the text of the mapping built
    from the listing the client returned), or exits with status 1 on an
    uncaught exception having written nothing. *)
Theorem never_partial_output {W : Type}
    (set_api_key : pystr -> W -> result unit * W)
    (get_dataset_files : pystr -> W -> result (list record) * W)
    (argv : list pystr) (w : W) :
  (exists path api_key data_id more w1 w2 files d,
     argv = path :: api_key :: data_id :: more
     /\ set_api_key api_key w = (inr tt, w1)
     /\ get_dataset_files data_id w1 = (inr files, w2)
     /\ summary files = inr d
     /\ Forall printable (json_dumps d)
     /\ run set_api_key get_dataset_files argv w
        = {| out_stdout := json_dumps d ++ [LF]; uncaught := None;
             exit_status := 0 |})
  \/ (exists e,
        run set_api_key get_dataset_files argv w
        = {| out_stdout := []; uncaught := Some e; exit_status := 1 |}).
Proof.
  destruct (le_lt_dec 3 (length argv)) as [Hlen|Hlen].
  2:{ right. exists IndexError. eapply run_of_script.
      apply script_short. exact Hlen. }
  destruct argv as [|path [|api_key [|data_id more]]]; try (simpl in Hlen; lia).
  destruct (set_api_key api_key w) as [[e|[]] w1] eqn:Hauth.
  { right. exists e. eapply run_of_script. apply script_rejected. exact Hauth. }
  destruct (get_dataset_files data_id w1) as [[e|files] w2] eqn:Hlist.
  { right. exists e. eapply run_of_script.
    eapply script_unlisted; eassumption. }
  pose proof (run_listed _ _ path _ _ more _ _ _ _ Hauth Hlist) as Hrun.
  destruct (summary files) as [e|d] eqn:Hd.
  { right. exists e. exact Hrun. }
  cbn [result_bind] in Hrun. unfold dumps in Hrun.
  destruct (serializable d).
  - left. exists path, api_key, data_id, more, w1, w2, files, d.
    repeat split; try assumption. apply json_dumps_printable.
  - right. exists ValueError. exact Hrun.
Qed.

(** X2: a rejected key stops the script.  If [set_api_key] raises, the
    process fails with that very exception and writes nothing; the
    client is left in the state [set_api_key] left it in, so the listing
    is never requested. *)
Theorem rejected_key_stops_script {W : Type}
    (set_api_key : pystr -> W -> result unit * W)
    (get_dataset_files : pystr -> W -> result (list record) * W)
    (path api_key data_id : pystr) (more : list pystr) (w w1 : W) (e : exn) :
  set_api_key api_key w = (inl e, w1) ->
  script set_api_key get_dataset_files (path :: api_key :: data_id :: more)
    {| world := w; stdout := [] |}
  = (inl e, {| world := w1; stdout := [] |})
  /\ run set_api_key get_dataset_files (path :: api_key :: data_id :: more) w
     = {| out_stdout := []; uncaught := Some e; exit_status := 1 |}.
Proof.
  intros Hauth.
  pose proof (script_rejected set_api_key get_dataset_files
                path api_key data_id more w w1 [] e Hauth) as H.
  split; [exact H|exact (run_of_script _ _ _ _ _ _ H)].
Qed.

Lemma rejected_key_stops_script_witness :
  script log_reject (log_listing sample_listing) sample_argv
    {| world := []; stdout := [] |}
  = (inl (ClientError (str "invalid API key")),
     {| world := [str "secret"]; stdout := [] |})
  /\ run log_reject (log_listing sample_listing) sample_argv []
     = {| out_stdout := [];
          uncaught := Some (ClientError (str "invalid API key"));
          exit_status := 1 |}.
Proof.
  exact (rejected_key_stops_script log_reject (log_listing sample_listing)
           (str "get_dewey_urls.py") (str "secret") (str "sales") []
           [] [str "secret"] _ eq_refl).
Defined.

(** X3: a failed listing stops the script.  If [set_api_key] returns and
    [get_dataset_files] raises, the process fails with that very
    exception and writes nothing. *)
Theorem failed_listing_stops_script {W : Type}
    (set_api_key : pystr -> W -> result unit * W)
    (get_dataset_files : pystr -> W -> result (list record) * W)
    (path api_key data_id : pystr) (more : list pystr) (w w1 w2 : W)
    (e : exn) :
  set_api_key api_key w = (inr tt, w1) ->
  get_dataset_files data_id w1 = (inl e, w2) ->
  script set_api_key get_dataset_files (path :: api_key :: data_id :: more)
    {| world := w; stdout := [] |}
  = (inl e, {| world := w2; stdout := [] |})
  /\ run set_api_key get_dataset_files (path :: api_key :: data_id :: more) w
     = {| out_stdout := []; uncaught := Some e; exit_status := 1 |}.
Proof.
  intros Hauth Hlist.
  pose proof (script_unlisted set_api_key get_dataset_files
                path api_key data_id more w w1 w2 [] tt e Hauth Hlist) as H.
  split; [exact H|exact (run_of_script _ _ _ _ _ _ H)].
Qed.

Lemma failed_listing_stops_script_witness :
  script log_key log_unreachable sample_argv {| world := []; stdout := [] |}
  = (inl (ClientError (str "connection refused")),
     {| world := [str "secret"; str "sales"]; stdout := [] |})
  /\ run log_key log_unreachable sample_argv []
     = {| out_stdout := [];
          uncaught := Some (ClientError (str "connection refused"));
          exit_status := 1 |}.
Proof.
  exact (failed_listing_stops_script log_key log_unreachable
           (str "get_dewey_urls.py") (str "secret") (str "sales") []
           [] [str "secret"] [str "secret"; str "sales"] _ eq_refl eq_refl).
Defined.

(** X4: without both arguments the client is never called.  With fewer
    than two arguments after the script path the script fails on reading
    [sys.argv] and leaves the client state and the standard output as
    they were. *)
Theorem no_call_without_arguments {W : Type}
    (set_api_key : pystr -> W -> result unit * W)
    (get_dataset_files : pystr -> W -> result (list record) * W)
    (argv : list pystr) (st : proc W) :
  (length argv < 3)%nat ->
  script set_api_key get_dataset_files argv st = (inl IndexError, st).
Proof.
  intros Hlen. destruct st as [w out].
  destruct argv as [|path [|api_key [|data_id more]]].
  - reflexivity.
  - reflexivity.
  - reflexivity.
  - simpl in Hlen. lia.
Qed.

Lemma no_call_without_arguments_witness :
  (length [str "get_dewey_urls.py"; str "secret"] < 3)%nat
  /\ script log_key (log_listing sample_listing)
       [str "get_dewey_urls.py"; str "secret"] {| world := []; stdout := [] |}
     = (inl IndexError, {| world := []; stdout := [] |}).
Proof.
  assert (H : (length [str "get_dewey_urls.py"; str "secret"] < 3)%nat)
    by (simpl; lia).
  split; [exact H|].
  exact (no_call_without_arguments log_key (log_listing sample_listing)
           [str "get_dewey_urls.py"; str "secret"] _ H).
Defined.

(** ** More on the mapping *)

Lemma Zsum_sizes_perm (files1 files2 : list record) :
  files1 ≡ₚ files2 ->
  Zsum (List.map size_of files1) = Zsum (List.map size_of files2).
Proof.
  induction 1 as [|f l1 l2 _ IH|f g l|l1 l2 l3 _ IH1 _ IH2]; simpl.
  - reflexivity.
  - rewrite IH. reflexivity.
  - lia.
  - congruence.
Qed.

Lemma Forall2_field_total (key : string) (files : list record) :
  Forall (fun f => is_Some (f !! str key)) files ->
  exists vs, Forall2 (field_is key) files vs.
Proof.
  induction 1 as [|f files [v Hv] _ [vs IH]]; [exists []; constructor|].
  exists (v :: vs). constructor; assumption.
Qed.

Lemma Forall2_size_total (files : list record) :
  Forall (fun f => exists z, size_is f z) files ->
  exists sizes, Forall2 size_is files sizes.
Proof.
  induction 1 as [|f files [z Hz] _ [zs IH]]; [exists []; constructor|].
  exists (z :: zs). constructor; assumption.
Qed.

(** X5: when the mapping is built.  The script builds its mapping
    whenever the listing is not empty, every record has a link and a
    file_size_bytes that is an int or a bool, and the first record has a
    file_name that is a string, a file_extension and a partition_key.
    Conversely, whenever it builds the mapping, the listing is not
    empty, every record has a link and a file_size_bytes that is not
    null, a string, a list or a dict, and the first record has a
    file_name that is a string, a file_extension and a partition_key. *)
Theorem mapping_built_conditions (files : list record) :
  (forall f0 rest,
     files = f0 :: rest ->
     Forall (fun f => is_Some (f !! str "link") /\ exists z, size_is f z) files ->
     (exists name, field_is "file_name" f0 (PStr name)) ->
     is_Some (f0 !! str "file_extension") ->
     is_Some (f0 !! str "partition_key") ->
     exists d, summary files = inr d)
  /\ (forall d,
        summary files = inr d ->
        exists f0 rest,
          files = f0 :: rest
          /\ Forall (fun f => is_Some (f !! str "link")
                              /\ exists v, field_is "file_size_bytes" f v
                                           /\ not_a_number v = false) files
          /\ (exists name, field_is "file_name" f0 (PStr name))
          /\ is_Some (f0 !! str "file_extension")
          /\ is_Some (f0 !! str "partition_key")).
Proof.
  split.
  - intros f0 rest -> Hall (name & Hn) (ext & He) (pk & Hp).
    destruct (Forall2_field_total "link" (f0 :: rest)) as (urls & Hu).
    { eapply Forall_impl; [exact Hall|]. intros f [H _]. exact H. }
    destruct (Forall2_size_total (f0 :: rest)) as (sizes & Hs).
    { eapply Forall_impl; [exact Hall|]. intros f [_ H]. exact H. }
    eexists. apply summary_value.
    exists f0, rest, urls, name, ext, pk, sizes. repeat split; eassumption.
  - intros d Hd.
    apply summary_value in Hd
      as (f0 & rest & urls & name & ext & pk & sizes
          & -> & Hu & Hn & He & Hp & Hs & _).
    exists f0, rest. split; [reflexivity|].
    split; [|split; [eauto|split; eexists; eassumption]].
    apply Forall_lookup. intros i f Hi.
    destruct (Forall2_lookup_l _ _ _ _ _ Hu Hi) as (u & _ & Hfu).
    destruct (Forall2_lookup_l _ _ _ _ _ Hs Hi) as (z & _ & v & Hv & Hz).
    split; [exists u; exact Hfu|exists v; split; [exact Hv|]].
    destruct v; first [discriminate Hz|reflexivity].
Qed.

Lemma mapping_built_conditions_witness :
  (exists d, summary [loose_record] = inr d)
  /\ exists v, field_is "file_size_bytes" loose_record v
               /\ not_a_number v = false.
Proof.
  assert (E : exists d, summary [loose_record] = inr d).
  { apply (proj1 (mapping_built_conditions [loose_record]) loose_record []).
    - reflexivity.
    - constructor; [|constructor].
      split; [eexists; vm_compute; reflexivity|].
      eexists. eexists. split; vm_compute; reflexivity.
    - eexists. vm_compute. reflexivity.
    - eexists. vm_compute. reflexivity.
    - eexists. vm_compute. reflexivity. }
  split; [exact E|]. destruct E as [d Hd].
  destruct (proj2 (mapping_built_conditions [loose_record]) d Hd)
    as (f0 & rest & [= <- <-] & Hall & _).
  apply Forall_cons in Hall as [[_ H] _]. exact H.
Defined.

(** X6: what the mapping holds, whatever the types.  Whenever the mapping
    is built, its "urls" are the records' link values in order, its
    "parent_folder" is the folder name of the first record's file_name,
    its "file_extension" and "partition_key" are the first record's
    values, and its "file_size_bytes" is the sum of what the records'
    sizes count as: no value is validated or converted on the way. *)
Theorem mapping_passes_values_through (files : list record) (d : pyval) :
  summary files = inr d ->
  exists f0 rest urls name,
    files = f0 :: rest
    /\ Forall2 (field_is "link") files urls
    /\ field_is "file_name" f0 (PStr name)
    /\ dict_get d (str "urls") = Some (PList urls)
    /\ dict_get d (str "parent_folder") = Some (PStr (parent_folder name))
    /\ dict_get d (str "file_extension") = f0 !! str "file_extension"
    /\ dict_get d (str "partition_key") = f0 !! str "partition_key"
    /\ dict_get d (str "file_size_bytes")
       = Some (PInt (Zsum (List.map size_of files)))
    /\ List.map fst (match d with PDict kvs => kvs | _ => [] end)
       = List.map str ["urls"; "parent_folder"; "file_extension";
                       "partition_key"; "file_size_bytes"]%string.
Proof.
  intros Hd.
  apply summary_value in Hd
    as (f0 & rest & urls & name & ext & pk & sizes
        & -> & Hu & Hn & He & Hp & Hs & ->).
  exists f0, rest, urls, name.
  rewrite <- (sizes_are_size_of _ _ Hs). unfold field_is in He, Hp.
  rewrite He, Hp. repeat split; assumption.
Qed.

Lemma mapping_passes_values_through_witness :
  exists d,
    summary [loose_record] = inr d
    /\ dict_get d (str "urls") = Some (PList [PNone])
    /\ dict_get d (str "file_extension") = Some (PInt 3)
    /\ dict_get d (str "file_size_bytes") = Some (PInt 1).
Proof.
  assert (E : exists d, summary [loose_record] = inr d)
    by (eexists; vm_compute; reflexivity).
  destruct E as [d Hd]. exists d. split; [exact Hd|].
  destruct (mapping_passes_values_through [loose_record] d Hd)
    as (f0 & rest & urls & name & [= <- <-] & Hu & _ & Hurls & _ & He & _ & Hs & _).
  split; [|split; [rewrite He; reflexivity|rewrite Hs; reflexivity]].
  rewrite Hurls. inversion Hu as [|? u ? us Hl Hrest]; subst.
  inversion Hrest; subst. vm_compute in Hl. injection Hl as <-. reflexivity.
Defined.

(** X7: a missing link is reported first.  If any record of the listing
    has no link, the script fails with the KeyError for "link", whatever
    else is wrong with the listing. *)
Theorem missing_link_reported_first (files : list record) (f : record) :
  f ∈ files -> lacks f "link" ->
  summary files = inl (KeyError (str "link")).
Proof.
  intros Hf Hl. unfold summary.
  destruct (comprehension _ files) as [e|urls] eqn:Eu.
  - apply comprehension_error in Eu as ->. reflexivity.
  - exfalso. apply comprehension_lookup in Eu.
    apply list_elem_of_lookup in Hf as [i Hi].
    destruct (Forall2_lookup_l _ _ _ _ _ Eu Hi) as (u & _ & Hfu).
    unfold lacks in Hl. congruence.
Qed.

Lemma missing_link_reported_first_witness :
  linkless_record ∈ [broken_record; linkless_record]
  /\ lacks linkless_record "link"
  /\ summary [broken_record; linkless_record] = inl (KeyError (str "link")).
Proof.
  assert (Hin : linkless_record ∈ [broken_record; linkless_record])
    by (right; left).
  assert (Hl : lacks linkless_record "link") by (vm_compute; reflexivity).
  split; [exact Hin|]. split; [exact Hl|].
  exact (missing_link_reported_first _ _ Hin Hl).
Defined.

(** X8: a file_name that is not a string.  If every record has a link
    and the first record's file_name is there but is not a [str], the
    script fails with the TypeError of [re.sub], whatever the other
    fields are. *)
Theorem untyped_file_name_raises (f0 : record) (rest : list record) (v : pyval) :
  Forall (fun f => is_Some (f !! str "link")) (f0 :: rest) ->
  field_is "file_name" f0 v -> (forall s, v <> PStr s) ->
  summary (f0 :: rest) = inl TypeError.
Proof.
  intros Hlinks Hv Hty.
  destruct (Forall2_field_total "link" _ Hlinks) as (urls & Hu).
  apply comprehension_lookup in Hu. unfold summary. rewrite Hu.
  run_result. unfold getitem at 1. unfold field_is in Hv. rewrite Hv.
  run_result. destruct v; try reflexivity. exfalso. eapply Hty. reflexivity.
Qed.

Lemma untyped_file_name_raises_witness :
  Forall (fun f => is_Some (f !! str "link")) [broken_record; text_size_record]
  /\ field_is "file_name" broken_record PNone
  /\ summary [broken_record; text_size_record] = inl TypeError.
Proof.
  assert (Hl : Forall (fun f => is_Some (f !! str "link"))
                 [broken_record; text_size_record]).
  { repeat (constructor; [eexists; vm_compute; reflexivity|]). constructor. }
  assert (Hn : field_is "file_name" broken_record PNone)
    by (vm_compute; reflexivity).
  split; [exact Hl|]. split; [exact Hn|].
  apply (untyped_file_name_raises _ _ PNone Hl Hn). discriminate.
Defined.

Lemma sum_sizes_app (acc : Z) (pre rest : list record) :
  Forall (fun g => exists z, size_is g z) pre ->
  sum_sizes acc (pre ++ rest)
  = sum_sizes (acc + Zsum (List.map size_of pre)) rest.
Proof.
  intros H. revert acc.
  induction H as [|g pre (z & v & Hv & Hz) _ IH]; intros acc.
  - simpl. f_equal. lia.
  - cbn [app sum_sizes List.map Zsum fold_right].
    unfold getitem, int_add. unfold field_is in Hv.
    rewrite (size_is_size_of g z) by (exists v; split; assumption).
    rewrite Hv. cbn [result_bind]. rewrite Hz. cbn [result_bind].
    rewrite IH. f_equal. unfold Zsum. lia.
Qed.

(** X9: the first defective size decides.  When everything before the
    aggregation succeeds and the sizes of the records before some record
    are ints or bools, that record decides the outcome whatever follows
    it: without file_size_bytes the script fails with the KeyError for
    that key, and with a file_size_bytes that is null, a string, a list
    or a dict it fails with the TypeError of the addition. *)
Theorem first_bad_size_decides (f0 : record) (rest pre post : list record)
    (f : record) (name : pystr) :
  f0 :: rest = pre ++ f :: post ->
  Forall (fun g => is_Some (g !! str "link")) (f0 :: rest) ->
  field_is "file_name" f0 (PStr name) ->
  is_Some (f0 !! str "file_extension") ->
  is_Some (f0 !! str "partition_key") ->
  Forall (fun g => exists z, size_is g z) pre ->
  (lacks f "file_size_bytes" ->
   summary (f0 :: rest) = inl (KeyError (str "file_size_bytes")))
  /\ (forall v, field_is "file_size_bytes" f v -> not_a_number v = true ->
      summary (f0 :: rest) = inl TypeError).
Proof.
  intros Hsplit Hlinks Hn [ext He] [pk Hp] Hpre.
  destruct (Forall2_field_total "link" _ Hlinks) as (urls & Hu).
  apply comprehension_lookup in Hu.
  assert (Hsum : forall e,
             sum_sizes 0 (f0 :: rest) = inl e -> summary (f0 :: rest) = inl e).
  { intros e Hs. unfold summary. rewrite Hu. run_result.
    unfold getitem at 1. unfold field_is in Hn. rewrite Hn. run_result.
    unfold getitem at 1. rewrite He. run_result.
    unfold getitem at 1. rewrite Hp. run_result.
    rewrite Hs. reflexivity. }
  split.
  - intros Hl. apply Hsum. rewrite Hsplit, (sum_sizes_app _ _ _ Hpre).
    cbn [sum_sizes]. unfold getitem. unfold lacks in Hl. rewrite Hl. reflexivity.
  - intros v Hv Hnan.
    assert (Hz : as_int v = None)
      by (destruct v; first [discriminate Hnan|reflexivity]).
    apply Hsum. rewrite Hsplit, (sum_sizes_app _ _ _ Hpre).
    cbn [sum_sizes]. unfold getitem, int_add. unfold field_is in Hv.
    rewrite Hv. cbn [result_bind]. rewrite Hz. reflexivity.
Qed.

Lemma first_bad_size_decides_witness :
  summary (sample_listing ++ [text_size_record; broken_record])
  = inl TypeError.
Proof.
  refine (proj2 (first_bad_size_decides
                   (make_record "https://files.example/sales-data_0.csv"
                      "sales-data_0.csv" ".csv" PNone 120)
                   [make_record "https://files.example/sales-data_1.csv"
                      "sales-data_1.csv" ".csv" PNone 80;
                    text_size_record; broken_record]
                   sample_listing [broken_record] text_size_record
                   (str "sales-data_0.csv") eq_refl _ _ _ _ _)
            (PStr (str "120")) _ eq_refl).
  - repeat (constructor; [eexists; vm_compute; reflexivity|]). constructor.
  - vm_compute. reflexivity.
  - eexists. vm_compute. reflexivity.
  - eexists. vm_compute. reflexivity.
  - repeat (constructor;
            [eexists; eexists; split; vm_compute; reflexivity|]).
    constructor.
  - vm_compute. reflexivity.
Defined.

(** X10: the order of the listing does not change an integer total.
    Two listings that hold the same records in different orders, every
    file_size_bytes being an int or a bool, and that both yield a
    mapping, yield the same "file_size_bytes". *)
Theorem total_ignores_order (files1 files2 : list record) (d1 d2 : pyval) :
  files1 ≡ₚ files2 ->
  Forall (fun f => exists z, size_is f z) files1 ->
  summary files1 = inr d1 -> summary files2 = inr d2 ->
  dict_get d1 (str "file_size_bytes") = dict_get d2 (str "file_size_bytes").
Proof.
  intros Hperm _ H1 H2.
  apply summary_value in H1
    as (f1 & r1 & urls1 & name1 & ext1 & pk1 & sizes1
        & _ & _ & _ & _ & _ & Hs1 & ->).
  apply summary_value in H2
    as (f2 & r2 & urls2 & name2 & ext2 & pk2 & sizes2
        & _ & _ & _ & _ & _ & Hs2 & ->).
  rewrite (sizes_are_size_of _ _ Hs1), (sizes_are_size_of _ _ Hs2).
  rewrite (Zsum_sizes_perm _ _ Hperm). reflexivity.
Qed.

Lemma total_ignores_order_witness :
  Forall (fun f => exists z, size_is f z) sample_listing
  /\ exists d1 d2,
    summary sample_listing = inr d1
    /\ summary (reverse sample_listing) = inr d2
    /\ dict_get d1 (str "file_size_bytes") = Some (PInt 200)
    /\ dict_get d1 (str "file_size_bytes") = dict_get d2 (str "file_size_bytes").
Proof.
  assert (Hs : Forall (fun f => exists z, size_is f z) sample_listing).
  { repeat (constructor; [eexists; eexists; split; vm_compute; reflexivity|]).
    constructor. }
  split; [exact Hs|]. eexists _, _.
  split; [vm_compute; reflexivity|]. split; [vm_compute; reflexivity|].
  split; [vm_compute; reflexivity|].
  apply (total_ignores_order sample_listing (reverse sample_listing));
    [symmetry; apply reverse_Permutation|exact Hs|vm_compute; reflexivity
    |vm_compute; reflexivity].
Defined.





(** X18: the digit limit of the interpreter.  For a non-empty listing of
    well-formed records whose total has more digits than the interpreter
    converts to text (4300), the mapping is built but json.dumps raises
    ValueError: the process exits with status 1 and has written
    nothing. *)
Theorem oversized_total_fails {W : Type}
    (set_api_key : pystr -> W -> result unit * W)
    (get_dataset_files : pystr -> W -> result (list record) * W)
    (path api_key data_id : pystr) (more : list pystr) (w w1 w2 : W)
    (files : list record) :
  set_api_key api_key w = (inr tt, w1) ->
  get_dataset_files data_id w1 = (inr files, w2) ->
  files <> [] -> Forall (fun f => well_formed f = true) files ->
  int_fits (total_size files) = false ->
  (exists d, summary files = inr d)
  /\ run set_api_key get_dataset_files (path :: api_key :: data_id :: more) w
     = {| out_stdout := []; uncaught := Some ValueError; exit_status := 1 |}.
Proof.
  intros Hauth Hlist Hne Hwf Hbig.
  destruct (summary_well_formed files Hne Hwf)
    as (f0 & rest & urls & name & ext & pk & sizes
        & Hf & Hu & Hn & He & Hp & Hs & Hd & _).
  split; [eexists; exact Hd|].
  rewrite (run_listed _ _ _ _ _ _ _ _ _ _ Hauth Hlist), Hd.
  cbn [result_bind]. unfold dumps.
  rewrite (mapping_serializable files f0 rest urls _ ext pk _ Hf Hwf Hu He Hp).
  rewrite (sizes_are_size_of files sizes (sizes_are_sizes _ _ Hs)).
  fold (total_size files). rewrite Hbig. reflexivity.
Qed.

Lemma oversized_total_fails_witness :
  [huge_record] <> []
  /\ Forall (fun f => well_formed f = true) [huge_record]
  /\ int_fits (total_size [huge_record]) = false
  /\ run accept_key (serve [huge_record]) sample_argv tt
     = {| out_stdout := []; uncaught := Some ValueError; exit_status := 1 |}.
Proof.
  assert (Hne : [huge_record] <> []) by discriminate.
  assert (Hwf : Forall (fun f => well_formed f = true) [huge_record])
    by (constructor; [vm_compute; reflexivity|constructor]).
  assert (Hbig : int_fits (total_size [huge_record]) = false)
    by (vm_compute; reflexivity).
  split; [exact Hne|]. split; [exact Hwf|]. split; [exact Hbig|].
  exact (proj2 (oversized_total_fails accept_key (serve [huge_record])
                  (str "get_dewey_urls.py") (str "secret") (str "sales") []
                  tt tt tt [huge_record] eq_refl eq_refl Hne Hwf Hbig)).
Defined.

(** ** More on the folder name *)

Lemma separator_not_decimal c : is_separator c = true -> is_decimal c = false.
Proof.
  unfold is_separator. intros [H|H]%orb_prop; apply N.eqb_eq in H; subst;
    reflexivity.
Qed.

Lemma separator_not_LF c : is_separator c = true -> c <> LF.
Proof. intros H ->. discriminate H. Qed.

Lemma decimal_not_LF d : is_decimal d = true -> d <> LF.
Proof. intros H ->. vm_compute in H. discriminate H. Qed.

Lemma spec_strip_shard_start s :
  starts_with_shard s = true -> spec_strip_shard s = [].
Proof.
  destruct s as [|c [|d s]]; try discriminate.
  unfold starts_with_shard, is_separator. cbn [spec_strip_shard].
  intros ->. reflexivity.
Qed.

Lemma spec_strip_shard_step c s :
  starts_with_shard (c :: s) = false ->
  spec_strip_shard (c :: s) = c :: spec_strip_shard s.
Proof.
  destruct s as [|d s]; [reflexivity|].
  unfold starts_with_shard, is_separator. cbn [spec_strip_shard].
  intros ->. reflexivity.
Qed.

Lemma spec_strip_shard_clean s : has_shard s = false -> spec_strip_shard s = s.
Proof.
  induction s as [|c s IH]; [reflexivity|].
  cbn [has_shard]. intros [Hc Hs]%orb_false_elim.
  rewrite (spec_strip_shard_step c s Hc), (IH Hs). reflexivity.
Qed.

Lemma starts_with_shard_app c (b t : pystr) x :
  is_decimal x = false ->
  starts_with_shard (c :: b) = false ->
  starts_with_shard (c :: b ++ x :: t) = false.
Proof.
  intros Hx. destruct b as [|y b]; [|trivial].
  intros _. cbn [app starts_with_shard]. rewrite Hx. apply andb_false_r.
Qed.

Lemma spec_strip_shard_cut base c d rest :
  has_shard base = false -> is_separator c = true -> is_decimal d = true ->
  spec_strip_shard (base ++ c :: d :: rest) = base.
Proof.
  intros Hbase Hc Hd. induction base as [|x b IH].
  - apply spec_strip_shard_start. simpl. rewrite Hc, Hd. reflexivity.
  - cbn [has_shard] in Hbase. apply orb_false_elim in Hbase as [Hx Hb].
    change ((x :: b) ++ c :: d :: rest) with (x :: b ++ c :: d :: rest).
    rewrite spec_strip_shard_step, (IH Hb); [reflexivity|].
    apply starts_with_shard_app; [apply separator_not_decimal, Hc|exact Hx].
Qed.

Lemma has_shard_app (s t : pystr) x :
  is_decimal x = false -> has_shard s = false -> has_shard (x :: t) = false ->
  has_shard (s ++ x :: t) = false.
Proof.
  intros Hx Hs Ht. induction s as [|c b IH]; [exact Ht|].
  cbn [has_shard] in Hs. apply orb_false_elim in Hs as [Hc Hb].
  change ((c :: b) ++ x :: t) with (c :: b ++ x :: t).
  cbn [has_shard]. rewrite (IH Hb), orb_false_r.
  apply starts_with_shard_app; assumption.
Qed.

Lemma has_shard_app_data s :
  has_shard s = false -> has_shard (s ++ str "-data") = false.
Proof.
  intros Hs. exact (has_shard_app s (str "data") 45 eq_refl Hs eq_refl).
Qed.

Lemma spec_strip_data_app s : spec_strip_data (s ++ str "-data") = s.
Proof.
  unfold spec_strip_data.
  rewrite decide_True by (apply suffix_app_r; reflexivity).
  rewrite length_app. change (length (str "-data")) with 5%nat.
  replace (length s + 5 - 5)%nat with (length s) by lia.
  apply take_app_length.
Qed.

Lemma line_app (a b : pystr) : LF ∉ a -> LF ∉ b -> LF ∉ a ++ b.
Proof. intros Ha Hb [H|H]%elem_of_app; contradiction. Qed.

Lemma line_shard c d (rest : pystr) :
  is_separator c = true -> is_decimal d = true -> LF ∉ rest ->
  LF ∉ c :: d :: rest.
Proof.
  intros Hc Hd Hr H. apply elem_of_cons in H as [H|H];
    [exact (separator_not_LF c Hc (eq_sym H))|].
  apply elem_of_cons in H as [H|H]; [exact (decimal_not_LF d Hd (eq_sym H))|].
  contradiction.
Qed.

Lemma has_shard_prefix (p s : pystr) :
  p `prefix_of` s -> has_shard s = false -> has_shard p = false.
Proof.
  revert s. induction p as [|c p IH]; intros s Hp Hs; [reflexivity|].
  destruct s as [|c' s]; [apply prefix_nil_not in Hp; contradiction|].
  pose proof (prefix_cons_inv_1 _ _ _ _ Hp) as ->.
  apply prefix_cons_inv_2 in Hp.
  cbn [has_shard] in Hs |- *. apply orb_false_elim in Hs as [Hc Hs].
  rewrite (IH s Hp Hs), orb_false_r.
  destruct p as [|d p]; [reflexivity|].
  destruct s as [|d' s]; [apply prefix_nil_not in Hp; contradiction|].
  pose proof (prefix_cons_inv_1 _ _ _ _ Hp) as ->. exact Hc.
Qed.

Lemma spec_strip_shard_head c s :
  spec_strip_shard (c :: s) = [] \/ exists t, spec_strip_shard (c :: s) = c :: t.
Proof.
  destruct (starts_with_shard (c :: s)) eqn:E.
  - left. apply spec_strip_shard_start, E.
  - right. eexists. apply spec_strip_shard_step, E.
Qed.

Lemma spec_strip_shard_no_shard s : has_shard (spec_strip_shard s) = false.
Proof.
  induction s as [|c s IH]; [reflexivity|].
  destruct (starts_with_shard (c :: s)) eqn:E.
  - rewrite spec_strip_shard_start by exact E. reflexivity.
  - rewrite spec_strip_shard_step by exact E.
    cbn [has_shard]. rewrite IH, orb_false_r.
    destruct s as [|d s]; [reflexivity|].
    destruct (spec_strip_shard_head d s) as [->|[t ->]]; [reflexivity|exact E].
Qed.

Lemma spec_strip_shard_split s :
  exists t, s = spec_strip_shard s ++ t
            /\ (t = [] \/ starts_with_shard t = true).
Proof.
  induction s as [|c s (t & Hs & Ht)]; [exists []; auto|].
  destruct (starts_with_shard (c :: s)) eqn:E.
  - exists (c :: s). rewrite spec_strip_shard_start by exact E. auto.
  - exists t. rewrite spec_strip_shard_step by exact E.
    split; [|exact Ht]. cbn [app]. f_equal. exact Hs.
Qed.

Lemma spec_strip_data_empty x :
  spec_strip_data x = [] <-> x = [] \/ x = str "-data".
Proof.
  split.
  - unfold spec_strip_data. case_decide as H; [|auto].
    destruct H as [k ->]. rewrite length_app.
    change (length (str "-data")) with 5%nat.
    replace (length k + 5 - 5)%nat with (length k) by lia.
    rewrite take_app_length. intros ->. auto.
  - intros [->| ->]; reflexivity.
Qed.

(** X12: shard suffixes do not matter.  For a base name without line feed
    in which no hyphen or underscore is followed by a digit, appending a
    hyphen or underscore, a digit and any further characters (no line
    feed) leaves the folder name what it is for the base name alone. *)
Theorem shard_suffix_ignored (base : pystr) (c d : char) (rest : pystr) :
  LF ∉ base -> LF ∉ rest -> has_shard base = false ->
  is_separator c = true -> is_decimal d = true ->
  parent_folder (base ++ c :: d :: rest) = parent_folder base.
Proof.
  intros Hb Hr Hbase Hc Hd.
  rewrite (parent_folder_line base Hb).
  rewrite parent_folder_line by (apply line_app, line_shard; assumption).
  unfold spec_parent_folder.
  rewrite (spec_strip_shard_cut base c d rest Hbase Hc Hd).
  rewrite (spec_strip_shard_clean base Hbase). reflexivity.
Qed.

Lemma shard_suffix_ignored_witness :
  (LF ∉ str "sales-data") /\ (LF ∉ str ".csv")
  /\ has_shard (str "sales-data") = false
  /\ parent_folder (str "sales-data" ++ 95 :: 49 :: str ".csv")
     = parent_folder (str "sales-data").
Proof.
  assert (Hb : LF ∉ str "sales-data") by compute_done.
  assert (Hr : LF ∉ str ".csv") by compute_done.
  assert (Hs : has_shard (str "sales-data") = false) by reflexivity.
  repeat (split; [assumption|]).
  exact (shard_suffix_ignored (str "sales-data") 95 49 (str ".csv")
           Hb Hr Hs eq_refl eq_refl).
Defined.

(** X13: exactly one trailing "-data" is removed.  For a name without
    line feed in which no hyphen or underscore is followed by a digit,
    the folder name of the name followed by "-data" is the name itself,
    also when the name itself ends in "-data". *)
Theorem one_data_suffix_removed (s : pystr) :
  LF ∉ s -> has_shard s = false -> parent_folder (s ++ str "-data") = s.
Proof.
  intros Hs Hclean.
  rewrite parent_folder_line by (apply line_app; [exact Hs|compute_done]).
  unfold spec_parent_folder.
  rewrite (spec_strip_shard_clean _ (has_shard_app_data s Hclean)).
  apply spec_strip_data_app.
Qed.

Lemma one_data_suffix_removed_witness :
  (LF ∉ str "raw-data") /\ has_shard (str "raw-data") = false
  /\ parent_folder (str "raw-data" ++ str "-data") = str "raw-data".
Proof.
  assert (Hs : LF ∉ str "raw-data") by compute_done.
  split; [exact Hs|]. split; [reflexivity|].
  exact (one_data_suffix_removed (str "raw-data") Hs eq_refl).
Defined.

(** X14: the naming scheme of the comment on line 22.  For a base name
    without line feed in which no hyphen or underscore is followed by a
    digit, the file name made of the base, "-data", a hyphen or
    underscore, a digit and any further characters (no line feed) has
    the base as its folder name. *)
Theorem dewey_name_gives_base (base : pystr) (c d : char) (rest : pystr) :
  LF ∉ base -> LF ∉ rest -> has_shard base = false ->
  is_separator c = true -> is_decimal d = true ->
  parent_folder (base ++ str "-data" ++ c :: d :: rest) = base.
Proof.
  intros Hb Hr Hbase Hc Hd.
  rewrite parent_folder_line
    by (apply line_app; [exact Hb|];
        apply line_app; [compute_done|apply line_shard; assumption]).
  unfold spec_parent_folder. rewrite app_assoc.
  rewrite (spec_strip_shard_cut _ c d rest (has_shard_app_data base Hbase) Hc Hd).
  apply spec_strip_data_app.
Qed.

Lemma dewey_name_gives_base_witness :
  (LF ∉ str "airline-employment") /\ (LF ∉ str "_0_0.snappy.parquet")
  /\ has_shard (str "airline-employment") = false
  /\ parent_folder (str "airline-employment" ++ str "-data"
                      ++ 95 :: 48 :: str "_0_0.snappy.parquet")
     = str "airline-employment".
Proof.
  assert (Hb : LF ∉ str "airline-employment") by compute_done.
  assert (Hr : LF ∉ str "_0_0.snappy.parquet") by compute_done.
  assert (Hs : has_shard (str "airline-employment") = false) by reflexivity.
  repeat (split; [assumption|]).
  exact (dewey_name_gives_base (str "airline-employment") 95 48
           (str "_0_0.snappy.parquet") Hb Hr Hs eq_refl eq_refl).
Defined.

(** X15: for a file name without line feed, no hyphen or underscore of
    the folder name is followed by a digit. *)
Theorem folder_has_no_shard (s : pystr) :
  LF ∉ s -> has_shard (parent_folder s) = false.
Proof.
  intros Hs. rewrite (parent_folder_line s Hs). unfold spec_parent_folder.
  apply (has_shard_prefix _ (spec_strip_shard s));
    [apply spec_strip_data_prefix|apply spec_strip_shard_no_shard].
Qed.

Lemma folder_has_no_shard_witness :
  (LF ∉ str "run_2024-data_0_1.csv")
  /\ has_shard (str "run_2024-data_0_1.csv") = true
  /\ has_shard (parent_folder (str "run_2024-data_0_1.csv")) = false.
Proof.
  assert (Hs : LF ∉ str "run_2024-data_0_1.csv") by compute_done.
  split; [exact Hs|]. split; [reflexivity|].
  exact (folder_has_no_shard (str "run_2024-data_0_1.csv") Hs).
Defined.

(** X16: the folder name can be empty.  For a file name without line
    feed it is empty exactly when the name is empty, begins with a hyphen
    or underscore that a digit follows, or is "-data" alone or directly
    followed by such a beginning. *)
Theorem folder_empty_iff (s : pystr) :
  LF ∉ s ->
  parent_folder s = []
  <-> exists t, (s = t \/ s = str "-data" ++ t)
                /\ (t = [] \/ starts_with_shard t = true).
Proof.
  intros Hs. rewrite (parent_folder_line s Hs). unfold spec_parent_folder.
  rewrite spec_strip_data_empty. split.
  - destruct (spec_strip_shard_split s) as (t & Est & Ht).
    intros [E|E]; rewrite E in Est; exists t; auto.
  - intros (t & [->| ->] & [->|Ht]).
    + left. reflexivity.
    + left. apply spec_strip_shard_start, Ht.
    + right. reflexivity.
    + right. destruct t as [|c [|d rest]]; try discriminate Ht.
      apply andb_prop in Ht as [Hc Hd].
      exact (spec_strip_shard_cut (str "-data") c d rest eq_refl Hc Hd).
Qed.

Lemma folder_empty_iff_witness :
  (LF ∉ str "-data_0.csv") /\ parent_folder (str "-data_0.csv") = [].
Proof.
  assert (Hs : LF ∉ str "-data_0.csv") by compute_done.
  split; [exact Hs|].
  apply (proj2 (folder_empty_iff (str "-data_0.csv") Hs)).
  exists (str "_0.csv"). split; [right; reflexivity|right; reflexivity].
Defined.

(** ** Listings one after the other *)

Lemma Zsum_app (xs ys : list Z) : Zsum (xs ++ ys) = (Zsum xs + Zsum ys)%Z.
Proof. induction xs as [|x xs IH]; simpl; [reflexivity|]. unfold Zsum in *. simpl. lia. Qed.

(** X17: listings concatenate.  If two listings, every file_size_bytes
    in them being an int or a bool, each yield a mapping, so does the
    first followed by the second: its "urls" are the urls of the first
    followed by those of the second, its "file_size_bytes" is the sum of
    the two integer totals, and its "parent_folder", "file_extension"
    and "partition_key" are those of the first. *)
Theorem listings_concatenate (files1 files2 : list record)
    (urls1 urls2 : list pyval) (folder1 ext1 pk1 folder2 ext2 pk2 : pyval)
    (total1 total2 : Z) :
  Forall (fun f => exists z, size_is f z) files1 ->
  Forall (fun f => exists z, size_is f z) files2 ->
  summary files1 = inr (mapping urls1 folder1 ext1 pk1 total1) ->
  summary files2 = inr (mapping urls2 folder2 ext2 pk2 total2) ->
  summary (files1 ++ files2)
  = inr (mapping (urls1 ++ urls2) folder1 ext1 pk1 (total1 + total2)).
Proof.
  intros _ _ H1 H2.
  apply summary_value in H1
    as (f1 & r1 & u1 & name1 & e1 & p1 & sizes1
        & -> & Hu1 & Hn1 & He1 & Hp1 & Hs1 & [= -> -> -> -> ->]).
  apply summary_value in H2
    as (f2 & r2 & u2 & name2 & e2 & p2 & sizes2
        & -> & Hu2 & _ & _ & _ & Hs2 & [= -> -> -> -> ->]).
  apply summary_value.
  exists f1, (r1 ++ f2 :: r2), (u1 ++ u2), name1, e1, p1, (sizes1 ++ sizes2).
  repeat split; try assumption.
  - apply Forall2_app; assumption.
  - apply Forall2_app; assumption.
  - rewrite Zsum_app. reflexivity.
Qed.

Lemma listings_concatenate_witness :
  Forall (fun f => exists z, size_is f z) sample_listing
  /\ Forall (fun f => exists z, size_is f z) [loose_record]
  /\ summary (sample_listing ++ [loose_record])
     = inr (mapping
              ([PStr (str "https://files.example/sales-data_0.csv");
                PStr (str "https://files.example/sales-data_1.csv")] ++ [PNone])
              (PStr (str "sales")) (PStr (str ".csv")) PNone (200 + 1)).
Proof.
  assert (H1 : Forall (fun f => exists z, size_is f z) sample_listing).
  { repeat (constructor; [eexists; eexists; split; vm_compute; reflexivity|]).
    constructor. }
  assert (H2 : Forall (fun f => exists z, size_is f z) [loose_record]).
  { repeat (constructor; [eexists; eexists; split; vm_compute; reflexivity|]).
    constructor. }
  split; [exact H1|]. split; [exact H2|].
  apply (listings_concatenate sample_listing [loose_record] _ _ _ _ _
           (PStr (str "events")) (PInt 3) (PList [PStr (str "day")]) _ _ H1 H2);
    vm_compute; reflexivity.
Defined.
